(** * AgroSense: the quota-aware allocator of the irrigation node

    A shallow embedding of [pvPortMallocWithQuota] and
    [vPortFreeWithTracking] (AgroSense.cpp), the two usage counters they
    maintain, and the calls they make to the FreeRTOS heap, the mutex and
    the serial port.

    Conventions.
    - [size_t] is an unsigned [w]-bit integer: a [Z] in [0, 2^w), with the
      wrap-around of [+=] and [-=] written out ([size_add], [size_sub]).
    - [void*] and [TaskHandle_t] are addresses, a [Z]; [NULL] is 0.
    - The FreeRTOS heap ([pvPortMalloc], [vPortFree]) is not part of the
      program: it is a parameter, a heap state with two operations.
    - Every call to the kernel, the heap or the serial port is recorded, in
      program order, in the [trace] of the world.
    - The two functions are given twice: as they are written, run from
      entry to return ([pvPortMallocWithQuota], [vPortFreeWithTracking]),
      and step by step for tasks that preempt each other ([mstep],
      [resume]); [complete_start] shows that the steps of a call, run
      without interruption, are the call.
    - The tasks are given by the body of their loop, with the values of
      [rand()] and of the kernel queries as arguments.  In the system they
      take turns ([wake], [turns]): a turn runs one task from one
      [vTaskDelay] to the next, and a call to one of the two functions is
      made whole, which the mutex is there for. *)

From Stdlib Require Import ZArith List Lia Bool Ascii String Permutation.
Import ListNotations.
Open Scope Z_scope.

(** ** Config *)

Definition SENSOR_TASK_QUOTA : Z := 2048.
Definition COMM_TASK_QUOTA : Z := 2048.
Definition STACK_SIZE : Z := 2048.

Definition NULL : Z := 0.

(** ** Calls that leave the program *)

Inductive event : Type :=
| SemaphoreTake                                  (* xSemaphoreTake(memMutex, portMAX_DELAY) *)
| SemaphoreGive                                  (* xSemaphoreGive(memMutex) *)
| PortMalloc (size : Z) (ptr : Z)                (* ptr = pvPortMalloc(size) *)
| PortFree (ptr : Z)                             (* vPortFree(ptr) *)
| SerialPrintf (fmt : string) (args : list Z).   (* Serial.printf(fmt, args...) *)

Definition is_printf (e : event) : bool :=
  match e with SerialPrintf _ _ => true | _ => false end.

Definition is_heap_call (e : event) : bool :=
  match e with PortMalloc _ _ | PortFree _ => true | _ => false end.

Definition is_lock_call (e : event) : bool :=
  match e with SemaphoreTake | SemaphoreGive => true | _ => false end.

(** What a call may leave in the trace: nothing at all, or one take, then at
    most one call that is not a semaphore call, then one give. *)
Definition bracketed (evs : list event) : Prop :=
  evs = [] \/
  exists mid,
    evs = SemaphoreTake :: mid ++ [SemaphoreGive] /\
    (List.length mid <= 1)%nat /\
    forallb (fun e => negb (is_lock_call e)) mid = true.

(** The two workload units that own a usage counter. *)
Inductive unit_id : Type := Sensor | Comm.

Definition quota_of (u : unit_id) : Z :=
  match u with Sensor => SENSOR_TASK_QUOTA | Comm => COMM_TASK_QUOTA end.

(** The format strings of the two rejection messages. *)
Definition LF : string := String "010"%char EmptyString.

Definition sensor_fmt : string :=
  "[SensorTask] ❌ Quota exceeded! Requested: %d, Used: %d/%d" ++ LF.
Definition comm_fmt : string :=
  "[CommTask] ❌ Quota exceeded! Requested: %d, Used: %d/%d" ++ LF.

(** ** Preemption

    The scheduler can switch tasks between any two statements.  A call is
    therefore also given as a sequence of small steps, each with at most one
    access to a usage counter or one call to the kernel, the heap or the
    serial port ([usage += size] is a read and then a write); the program
    point of a task records where it stands and what it has in its locals.
    The two task handles are only read here. *)

Inductive pc : Type :=
| MStart (size h : Z)                           (* called, before line 23 *)
| MTest (size h : Z)                            (* mutex held, at the handle and quota tests *)
| MPrint (size : Z) (v : unit_id)               (* test failed, at Serial.printf *)
| MCall (size : Z) (v : unit_id)                (* test passed, at pvPortMalloc *)
| MIf (size : Z) (v : unit_id) (ptr : Z)        (* at  if (ptr) usage += size  *)
| MStore (size : Z) (v : unit_id) (ptr x : Z)   (* usage read into x, store pending *)
| MGive (ptr : Z)                               (* at xSemaphoreGive *)
| MDone (ptr : Z)                               (* returned ptr *)
| FStart (ptr size h : Z)                       (* called, at  if (!ptr) return  *)
| FTake (ptr size h : Z)                        (* at xSemaphoreTake *)
| FFree (ptr size h : Z)                        (* mutex held, at vPortFree *)
| FTest (size h : Z)                            (* at the handle tests *)
| FStore (size : Z) (v : unit_id) (x : Z)       (* usage read into x, store pending *)
| FGive                                         (* at xSemaphoreGive *)
| FDone.                                        (* returned *)

Definition is_done (p : pc) : bool :=
  match p with MDone _ | FDone => true | _ => false end.

(** At [xSemaphoreTake]: the task can only go on once the mutex is free. *)
Definition wants_mutex (p : pc) : bool :=
  match p with MStart _ _ | FTake _ _ _ => true | _ => false end.

Definition gives_mutex (p : pc) : bool :=
  match p with MGive _ | FGive => true | _ => false end.

(** Between the take and the give. *)
Definition inside (p : pc) : bool :=
  match p with
  | MTest _ _ | MPrint _ _ | MCall _ _ | MIf _ _ _ | MStore _ _ _ _ | MGive _
  | FFree _ _ _ | FTest _ _ | FStore _ _ _ | FGive => true
  | _ => false
  end.

(** An upper bound on the steps a task still has to make. *)
Definition steps_left (p : pc) : nat :=
  match p with
  | MStart _ _ | FStart _ _ _ => 6
  | MTest _ _ | FTake _ _ _ => 5
  | MCall _ _ | FFree _ _ _ => 4
  | MIf _ _ _ | FTest _ _ => 3
  | MStore _ _ _ _ | MPrint _ _ | FStore _ _ _ => 2
  | MGive _ | FGive => 1
  | MDone _ | FDone => 0
  end%nat.

Fixpoint upd {A : Type} (i : nat) (x : A) (l : list A) : list A :=
  match l, i with
  | [], _ => []
  | _ :: l', O => x :: l'
  | y :: l', S i' => y :: upd i' x l'
  end.

Definition pick {A : Type} (d : A) (l : list A) (order : list nat) : list A :=
  map (fun i => nth i l d) order.

Definition total (l : list Z) : Z := fold_right Z.add 0 l.

(** The schedule that runs each task of [idxs] in turn, six steps at a
    time. *)
Definition one_by_one (idxs : list nat) : list nat :=
  List.concat (map (fun i => repeat i 6) idxs).

Section QuotaAllocator.

(** Width of [size_t] in bits. *)
Variable w : Z.

Definition size_max : Z := 2 ^ w.
Definition is_size_t (n : Z) : Prop := 0 <= n < size_max.
Definition size_add (a b : Z) : Z := (a + b) mod size_max.
Definition size_sub (a b : Z) : Z := (a - b) mod size_max.

(** The heap provider: FreeRTOS's [pvPortMalloc] and [vPortFree]. *)
Variable Heap : Type.
Variable pvPortMalloc : Z -> Heap -> Z * Heap.
Variable vPortFree : Z -> Heap -> Heap.

(** ** Globals *)

Record World : Type := mkWorld {
  sensorTaskHandle : Z;
  commTaskHandle : Z;
  sensorMemUsage : Z;
  commMemUsage : Z;
  heap : Heap;
  trace : list event
}.

Definition set_sensorMemUsage (v : Z) (s : World) : World :=
  mkWorld (sensorTaskHandle s) (commTaskHandle s) v (commMemUsage s)
          (heap s) (trace s).

Definition set_commMemUsage (v : Z) (s : World) : World :=
  mkWorld (sensorTaskHandle s) (commTaskHandle s) (sensorMemUsage s) v
          (heap s) (trace s).

Definition set_heap (h : Heap) (s : World) : World :=
  mkWorld (sensorTaskHandle s) (commTaskHandle s) (sensorMemUsage s)
          (commMemUsage s) h (trace s).

Definition log (e : event) (s : World) : World :=
  mkWorld (sensorTaskHandle s) (commTaskHandle s) (sensorMemUsage s)
          (commMemUsage s) (heap s) (trace s ++ [e]).

(** ** A state monad over the globals *)

Definition M (A : Type) : Type := World -> A * World.

Definition ret {A} (a : A) : M A := fun s => (a, s).
Definition bind {A B} (c : M A) (k : A -> M B) : M B :=
  fun s => let (a, s') := c s in k a s'.
Definition get : M World := fun s => (s, s).
Definition modify (f : World -> World) : M unit := fun s => (tt, f s).

Notation "x <- c ;; k" := (bind c (fun x => k))
  (at level 61, c at next level, right associativity).
Notation "c ;; k" := (bind c (fun _ => k))
  (at level 61, right associativity).

Definition xSemaphoreTake : M unit := modify (log SemaphoreTake).
Definition xSemaphoreGive : M unit := modify (log SemaphoreGive).

Definition call_pvPortMalloc (size : Z) : M Z :=
  fun s => let (p, h) := pvPortMalloc size (heap s) in
           (p, log (PortMalloc size p) (set_heap h s)).

Definition call_vPortFree (ptr : Z) : M unit :=
  fun s => (tt, log (PortFree ptr) (set_heap (vPortFree ptr (heap s)) s)).

Definition Serial_printf (fmt : string) (args : list Z) : M unit :=
  modify (log (SerialPrintf fmt args)).

(** ** Quota-aware malloc/free

    The sum [usage + size] is a [size_t] and wraps; the [int] constant 2048 it
    is compared with is converted to [size_t], which leaves it as it is for
    any [size_t] of 12 bits or more. *)

Definition pvPortMallocWithQuota (size taskHandle : Z) : M Z :=
  xSemaphoreTake ;;
  g <- get ;;
  ptr <- (if taskHandle =? sensorTaskHandle g then
            if size_add (sensorMemUsage g) size <=? SENSOR_TASK_QUOTA then
              ptr <- call_pvPortMalloc size ;;
              (if ptr =? NULL then ret tt
               else modify (fun s => set_sensorMemUsage
                                       (size_add (sensorMemUsage s) size) s)) ;;
              ret ptr
            else
              Serial_printf sensor_fmt [size; sensorMemUsage g; SENSOR_TASK_QUOTA] ;;
              ret NULL
          else if taskHandle =? commTaskHandle g then
            if size_add (commMemUsage g) size <=? COMM_TASK_QUOTA then
              ptr <- call_pvPortMalloc size ;;
              (if ptr =? NULL then ret tt
               else modify (fun s => set_commMemUsage
                                       (size_add (commMemUsage s) size) s)) ;;
              ret ptr
            else
              Serial_printf comm_fmt [size; commMemUsage g; COMM_TASK_QUOTA] ;;
              ret NULL
          else ret NULL) ;;
  xSemaphoreGive ;;
  ret ptr.

Definition vPortFreeWithTracking (ptr size taskHandle : Z) : M unit :=
  if ptr =? NULL then ret tt
  else
    xSemaphoreTake ;;
    call_vPortFree ptr ;;
    g <- get ;;
    (if taskHandle =? sensorTaskHandle g then
       modify (fun s => set_sensorMemUsage (size_sub (sensorMemUsage s) size) s)
     else if taskHandle =? commTaskHandle g then
       modify (fun s => set_commMemUsage (size_sub (commMemUsage s) size) s)
     else ret tt) ;;
    xSemaphoreGive.

(** ** The ledger seen per unit *)

Definition used (u : unit_id) (s : World) : Z :=
  match u with Sensor => sensorMemUsage s | Comm => commMemUsage s end.

Definition set_used (u : unit_id) (v : Z) (s : World) : World :=
  match u with
  | Sensor => set_sensorMemUsage v s
  | Comm => set_commMemUsage v s
  end.

Definition other (u : unit_id) : unit_id :=
  match u with Sensor => Comm | Comm => Sensor end.

Definition fmt_of (u : unit_id) : string :=
  match u with Sensor => sensor_fmt | Comm => comm_fmt end.

(** Which counter a handle selects: the order of the two tests of the
    [if ... else if ...] chain. *)
Definition unit_of (taskHandle : Z) (s : World) : option unit_id :=
  if taskHandle =? sensorTaskHandle s then Some Sensor
  else if taskHandle =? commTaskHandle s then Some Comm
  else None.

(** The events a call appended to the trace. *)
Definition emitted (s s' : World) : list event :=
  skipn (List.length (trace s)) (trace s').

(** ** Sequences of calls and the records the callers hold *)

Inductive call : Type :=
| Alloc (size taskHandle : Z)
| Release (ptr size taskHandle : Z).

Definition exec (c : call) (s : World) : World :=
  match c with
  | Alloc size h => snd (pvPortMallocWithQuota size h s)
  | Release ptr size h => snd (vPortFreeWithTracking ptr size h s)
  end.

Definition run (cs : list call) (s : World) : World :=
  fold_left (fun s c => exec c s) cs s.

(** What [SensorTask] and [CommTask] keep between the two calls:
    the pointer, the size and their own handle. *)
Definition record : Type := (Z * Z * Z)%type.

Definition record_eqb (a b : record) : bool :=
  let '(p, n, h) := a in
  let '(p', n', h') := b in
  (p =? p') && (n =? n') && (h =? h').

Fixpoint holds (r : record) (out : list record) : bool :=
  match out with
  | [] => false
  | x :: out' => record_eqb r x || holds r out'
  end.

Fixpoint drop (r : record) (out : list record) : list record :=
  match out with
  | [] => []
  | x :: out' => if record_eqb r x then out' else x :: drop r out'
  end.

(** The caller contract along a sequence of calls: every release names the
    pointer, size and handle of an allocation that succeeded earlier and has
    not been released since.  [Some out] gives the records still held at the
    end; [None] means that some release broke the contract. *)
Fixpoint held (out : list record) (cs : list call) (s : World)
  : option (list record) :=
  match cs with
  | [] => Some out
  | Alloc size h :: cs' =>
      let (p, s') := pvPortMallocWithQuota size h s in
      held (if p =? NULL then out else (p, size, h) :: out) cs' s'
  | Release p size h :: cs' =>
      if holds (p, size, h) out
      then held (drop (p, size, h) out) cs'
                (snd (vPortFreeWithTracking p size h s))
      else None
  end.

(** The bytes of the held records that are charged to unit [u]. *)
Definition unit_eqb (a b : unit_id) : bool :=
  match a, b with
  | Sensor, Sensor | Comm, Comm => true
  | _, _ => false
  end.

Definition charge (u : unit_id) (s : World) (r : record) : Z :=
  let '(_, n, h) := r in
  match unit_of h s with
  | Some v => if unit_eqb u v then n else 0
  | None => 0
  end.

Fixpoint owed (u : unit_id) (s : World) (out : list record) : Z :=
  match out with
  | [] => 0
  | r :: out' => charge u s r + owed u s out'
  end.

Definition record_ok (r : record) : Prop :=
  let '(p, n, _) := r in p <> NULL /\ 0 <= n.

(** What the device guarantees about its heap: it has [heapSize] bytes, a
    request for more than that fails, and the heap together with a full quota
    still fits the address space. *)
Definition heap_fits (heapSize : Z) : Prop :=
  0 <= heapSize /\ heapSize + 2048 < size_max /\
  forall size hp, fst (pvPortMalloc size hp) <> NULL -> size <= heapSize.

(** A diagnostic line was printed between [s] and [s']. *)
Definition reported (s s' : World) : bool :=
  existsb is_printf (emitted s s').

Definition sizes_ok (cs : list call) : Prop :=
  Forall (fun c => match c with
                   | Alloc size _ => is_size_t size
                   | Release _ size _ => is_size_t size
                   end) cs.

(** One step of a task on the globals. *)
Definition mstep (p : pc) (g : World) : pc * World :=
  match p with
  | MStart size h => (MTest size h, log SemaphoreTake g)
  | MTest size h =>
      match unit_of h g with
      | Some v =>
          if size_add (used v g) size <=? quota_of v
          then (MCall size v, g)
          else (MPrint size v, g)
      | None => (MGive NULL, g)
      end
  | MPrint size v =>
      (MGive NULL,
       log (SerialPrintf (fmt_of v) [size; used v g; quota_of v]) g)
  | MCall size v =>
      let (ptr, hp) := pvPortMalloc size (heap g) in
      (MIf size v ptr, log (PortMalloc size ptr) (set_heap hp g))
  | MIf size v ptr =>
      if ptr =? NULL then (MGive ptr, g)
      else (MStore size v ptr (used v g), g)
  | MStore size v ptr x => (MGive ptr, set_used v (size_add x size) g)
  | MGive ptr => (MDone ptr, log SemaphoreGive g)
  | MDone ptr => (MDone ptr, g)
  | FStart ptr size h =>
      if ptr =? NULL then (FDone, g) else (FTake ptr size h, g)
  | FTake ptr size h => (FFree ptr size h, log SemaphoreTake g)
  | FFree ptr size h =>
      (FTest size h, log (PortFree ptr) (set_heap (vPortFree ptr (heap g)) g))
  | FTest size h =>
      match unit_of h g with
      | Some v => (FStore size v (used v g), g)
      | None => (FGive, g)
      end
  | FStore size v x => (FGive, set_used v (size_sub x size) g)
  | FGive => (FDone, log SemaphoreGive g)
  | FDone => (FDone, g)
  end.

Fixpoint finish (n : nat) (p : pc) (g : World) : pc * World :=
  match n with
  | O => (p, g)
  | S n' => let (p', g') := mstep p g in finish n' p' g'
  end.

(** The rest of a call, run without interruption: no call has more than six
    steps. *)
Definition complete (p : pc) (g : World) : pc * World := finish 6 p g.

(** The tasks, the globals they share and the holder of [memMutex]. *)
Record config : Type := mkConfig {
  globals : World;
  memMutex : option nat;
  tasks : list pc
}.

(** The scheduler lets task [i] make one step.  A task waiting for a taken
    mutex, a task that has returned and a task that does not exist make
    none. *)
Definition resume (i : nat) (c : config) : config :=
  match nth_error (tasks c) i with
  | None => c
  | Some p =>
      if is_done p then c
      else if wants_mutex p then
        match memMutex c with
        | Some _ => c
        | None =>
            let (p', g') := mstep p (globals c) in
            mkConfig g' (Some i) (upd i p' (tasks c))
        end
      else
        let (p', g') := mstep p (globals c) in
        mkConfig g' (if gives_mutex p then None else memMutex c)
                 (upd i p' (tasks c))
  end.

Definition schedule (sched : list nat) (c : config) : config :=
  fold_left (fun c i => resume i c) sched c.

Definition start (c : call) : pc :=
  match c with
  | Alloc size h => MStart size h
  | Release ptr size h => FStart ptr size h
  end.

(** One task per call, none started, the mutex free. *)
Definition racing (cs : list call) (s0 : World) : config :=
  mkConfig s0 None (map start cs).

Definition all_done (c : config) : bool := forallb is_done (tasks c).

(** The calls one after the other, with what each returns. *)
Definition returned (c : call) (s : World) : pc :=
  match c with
  | Alloc size h => MDone (fst (pvPortMallocWithQuota size h s))
  | Release _ _ _ => FDone
  end.

Fixpoint serial (cs : list call) (s : World) : list pc * World :=
  match cs with
  | [] => ([], s)
  | c :: cs' =>
      let (ds, s') := serial cs' (exec c s) in (returned c s :: ds, s')
  end.

(** The bytes a finished call added to the counter of unit [u]. *)
Definition names (u : unit_id) (h : Z) (s : World) : bool :=
  match unit_of h s with Some v => unit_eqb u v | None => false end.

Definition net (u : unit_id) (s : World) (c : call) (d : pc) : Z :=
  match c, d with
  | Alloc size h, MDone ptr =>
      if negb (ptr =? NULL) && names u h s then size else 0
  | Release ptr size h, FDone =>
      if negb (ptr =? NULL) && names u h s then - size else 0
  | _, _ => 0
  end.

Definition net_sum (u : unit_id) (s : World) (cs : list call) (ds : list pc)
  : Z :=
  total (map (fun cd => net u s (fst cd) (snd cd)) (combine cs ds)).

(** A task that has not yet obtained the mutex for its call. *)
Definition waiting (c : call) (p : pc) : Prop :=
  p = start c \/
  exists ptr size h, c = Release ptr size h /\ ptr <> NULL /\ p = FTake ptr size h.

Definition no_call : call := Release NULL 0 0.

(** The calls of the tasks listed in [order] have taken effect, one after the
    other in that order; the holder of the mutex, if any, is in the middle of
    the next one; every other task is still waiting. *)
Definition serialised (cs : list call) (s0 : World) (c : config)
           (order : list nat) : Prop :=
  List.length (tasks c) = List.length cs /\
  NoDup order /\
  (forall i, In i order -> (i < List.length cs)%nat) /\
  (forall i cl p,
      ~ In i order -> memMutex c <> Some i ->
      nth_error cs i = Some cl -> nth_error (tasks c) i = Some p ->
      waiting cl p) /\
  match memMutex c with
  | None =>
      serial (pick no_call cs order) s0
      = (pick FDone (tasks c) order, globals c)
  | Some i =>
      ~ In i order /\
      exists cl p sprev,
        nth_error cs i = Some cl /\
        nth_error (tasks c) i = Some p /\
        inside p = true /\
        serial (pick no_call cs order) s0
        = (pick FDone (tasks c) order, sprev) /\
        complete p (globals c) = complete (start cl) sprev
  end.

(** Task [i] can go on: it holds the mutex, or it is outside and the mutex
    is free. *)
Definition ready (c : config) (i : nat) (p : pc) : Prop :=
  (inside p = true /\ memMutex c = Some i) \/
  (inside p = false /\ memMutex c = None).

Definition only_allocs (cs : list call) : Prop :=
  Forall (fun c => match c with Alloc _ _ => True | _ => False end) cs.

End QuotaAllocator.

Arguments mkWorld {Heap}.
Arguments sensorTaskHandle {Heap}.
Arguments commTaskHandle {Heap}.
Arguments sensorMemUsage {Heap}.
Arguments commMemUsage {Heap}.
Arguments heap {Heap}.
Arguments trace {Heap}.
Arguments set_sensorMemUsage {Heap}.
Arguments set_commMemUsage {Heap}.
Arguments set_heap {Heap}.
Arguments log {Heap}.
Arguments used {Heap}.
Arguments set_used {Heap}.
Arguments unit_of {Heap}.
Arguments emitted {Heap}.
Arguments charge {Heap}.
Arguments owed {Heap}.
Arguments reported {Heap}.
Arguments heap_fits w {Heap}.
Arguments pvPortMallocWithQuota w {Heap}.
Arguments vPortFreeWithTracking w {Heap}.
Arguments exec w {Heap}.
Arguments run w {Heap}.
Arguments held w {Heap}.
Arguments mstep w {Heap}.
Arguments finish w {Heap}.
Arguments complete w {Heap}.
Arguments mkConfig {Heap}.
Arguments globals {Heap}.
Arguments memMutex {Heap}.
Arguments tasks {Heap}.
Arguments resume w {Heap}.
Arguments schedule w {Heap}.
Arguments racing {Heap}.
Arguments all_done {Heap}.
Arguments returned w {Heap}.
Arguments serial w {Heap}.
Arguments serialised w {Heap}.
Arguments ready {Heap}.
Arguments names {Heap}.
Arguments net {Heap}.
Arguments net_sum {Heap}.

(** ** The tasks

    [SensorTask] and [CommTask] run for ever; what is given here is the body
    of their loop.  The values [rand()] returns are arguments of the body.
    Besides the globals a task leaves a journal: its calls to [vTaskDelay]
    and the activations of [stressStack]. *)

Inductive act : Type :=
| Sleep (ticks : Z)    (* vTaskDelay(ticks) *)
| Enter (depth : Z)    (* stressStack(depth) is entered *)
| Leave.               (* stressStack returns *)

Definition CRLF : string :=
  String "013"%char (String "010"%char EmptyString).

Definition sensor_alloc_fmt : string :=
  "[SensorTask] 🌱 Allocating %d bytes..." ++ LF.
Definition sensor_ok_fmt : string :=
  "[SensorTask] ✅ Allocated | Usage: %d / %d" ++ LF.
Definition sensor_freed : string := "[SensorTask] 🧹 Freed memory.".

Definition comm_alloc_fmt : string :=
  "[CommTask] 📡 Allocating %d bytes..." ++ LF.
Definition comm_ok_fmt : string :=
  "[CommTask] ✅ Allocated | Usage: %d / %d" ++ LF.
Definition comm_freed : string := "[CommTask] 🧹 Freed memory.".

Definition heap_monitor_fmt : string :=
  "[HeapMonitor] 📉 Free Heap: %d bytes | Min Ever: %d bytes" ++ LF.
Definition stack_monitor_fmt : string :=
  "[StackMonitor] 🧠 Stack - Sensor: %d | Comm: %d | HeapMon: %d (words)" ++ LF.

(** The "Quota exceeded" line of unit [u]. *)
Definition is_rejection (u : unit_id) (e : event) : bool :=
  match e with
  | SerialPrintf f _ =>
      String.eqb f (fmt_of u)
  | _ => false
  end.


(** The [Enter]s of [stressStack(depth)], outermost first. *)
Fixpoint descent (n : nat) : list act :=
  match n with
  | O => [Enter 0]
  | S n' => Enter (Z.of_nat n) :: descent n'
  end.

(** The heap calls of a task that leaks nothing: none, or a request of
    [size] bytes that failed, or a request that was granted followed by the
    release of the same pointer. *)
Definition paired (size : Z) (calls : list event) : Prop :=
  calls = [] \/
  calls = [PortMalloc size NULL] \/
  exists p, p <> NULL /\ calls = [PortMalloc size p; PortFree p].

(** What [stressStack(depth)] writes into the journal: it goes down to 0,
    or stops at once when [depth] is not positive, and then comes back. *)
Definition stress_journal (depth : Z) : list act :=
  (if depth <=? 0 then [Enter depth] else descent (Z.to_nat depth))
  ++ repeat Leave (S (Z.to_nat depth)).

Section Tasks.

Variable w : Z.
Variable Heap : Type.
Variable pvPortMalloc : Z -> Heap -> Z * Heap.
Variable vPortFree : Z -> Heap -> Heap.

(** A constant of the FreeRTOS configuration. *)
Variable portTICK_PERIOD_MS : Z.

(** An [int] that becomes a [size_t]. *)
Definition to_size_t (x : Z) : Z := x mod size_max w.

Record Node : Type := mkNode {
  shared : World Heap;
  journal : list act
}.

Definition T (A : Type) : Type := Node -> A * Node.

Definition tret {A} (a : A) : T A := fun n => (a, n).
Definition tbind {A B} (c : T A) (k : A -> T B) : T B :=
  fun n => let (a, n') := c n in k a n'.

Notation "x <- c ;; k" := (tbind c (fun x => k))
  (at level 61, c at next level, right associativity).
Notation "c ;; k" := (tbind c (fun _ => k))
  (at level 61, right associativity).

(** A function on the globals, called by a task. *)
Definition lift {A} (m : M Heap A) : T A :=
  fun n => let (a, g) := m (shared n) in (a, mkNode g (journal n)).

Definition read : T (World Heap) := fun n => (shared n, n).

Definition note (a : act) : T unit :=
  fun n => (tt, mkNode (shared n) (journal n ++ [a])).

Definition vTaskDelay (ticks : Z) : T unit := note (Sleep ticks).

(** [Serial.println(text)]: the text and a line end. *)
Definition Serial_println (text : string) : M Heap unit :=
  Serial_printf Heap (text ++ CRLF) [].

(** ** Simulate stack growth

    [stressStack] calls itself while [depth > 0]; [fuel] bounds the number
    of calls, and [Z.to_nat depth] is enough of it. *)
Fixpoint stressStack_fuel (fuel : nat) (depth : Z) : T unit :=
  note (Enter depth) ;;
  (if 0 <? depth then
     match fuel with
     | O => tret tt
     | S fuel' => stressStack_fuel fuel' (depth - 1)
     end
   else tret tt) ;;
  note Leave.

Definition stressStack (depth : Z) : T unit :=
  stressStack_fuel (Z.to_nat depth) depth.

(** ** Sensor task *)

Definition sensor_allocSize (r : Z) : Z := to_size_t (256 + Z.rem r 1024).
Definition sensor_stress (r : Z) : Z := 4 + Z.rem r 4.

(** One turn of the loop: [r1] and [r2] are what the two calls of [rand()]
    return. *)
Definition SensorTask_iteration (r1 r2 self : Z) : T unit :=
  let allocSize := sensor_allocSize r1 in
  lift (Serial_printf Heap sensor_alloc_fmt [allocSize]) ;;
  data <- lift (pvPortMallocWithQuota w pvPortMalloc allocSize self) ;;
  (if data =? NULL then tret tt
   else
     g <- read ;;
     lift (Serial_printf Heap sensor_ok_fmt
             [sensorMemUsage g; SENSOR_TASK_QUOTA]) ;;
     stressStack (sensor_stress r2) ;;
     vTaskDelay (Z.quot 1000 portTICK_PERIOD_MS) ;;
     lift (vPortFreeWithTracking w vPortFree data allocSize self) ;;
     lift (Serial_println sensor_freed)) ;;
  vTaskDelay (Z.quot 2000 portTICK_PERIOD_MS).

(** The same turn cut where the task sleeps with the memory in hand: from
    the top of the loop to the first [vTaskDelay] it reaches, and from there
    to the end of the turn. *)
Definition SensorTask_request (r1 r2 self : Z) : T (Z * Z) :=
  let allocSize := sensor_allocSize r1 in
  lift (Serial_printf Heap sensor_alloc_fmt [allocSize]) ;;
  data <- lift (pvPortMallocWithQuota w pvPortMalloc allocSize self) ;;
  (if data =? NULL then vTaskDelay (Z.quot 2000 portTICK_PERIOD_MS)
   else
     g <- read ;;
     lift (Serial_printf Heap sensor_ok_fmt
             [sensorMemUsage g; SENSOR_TASK_QUOTA]) ;;
     stressStack (sensor_stress r2) ;;
     vTaskDelay (Z.quot 1000 portTICK_PERIOD_MS)) ;;
  tret (allocSize, data).

Definition SensorTask_release (allocSize data self : Z) : T unit :=
  lift (vPortFreeWithTracking w vPortFree data allocSize self) ;;
  lift (Serial_println sensor_freed) ;;
  vTaskDelay (Z.quot 2000 portTICK_PERIOD_MS).

(** ** Communication task *)

Definition comm_allocSize (r : Z) : Z := to_size_t (512 + Z.rem r 2048).
Definition comm_stress (r : Z) : Z := 6 + Z.rem r 3.

Definition CommTask_iteration (r1 r2 self : Z) : T unit :=
  let allocSize := comm_allocSize r1 in
  lift (Serial_printf Heap comm_alloc_fmt [allocSize]) ;;
  packet <- lift (pvPortMallocWithQuota w pvPortMalloc allocSize self) ;;
  (if packet =? NULL then tret tt
   else
     g <- read ;;
     lift (Serial_printf Heap comm_ok_fmt [commMemUsage g; COMM_TASK_QUOTA]) ;;
     stressStack (comm_stress r2) ;;
     vTaskDelay (Z.quot 800 portTICK_PERIOD_MS) ;;
     lift (vPortFreeWithTracking w vPortFree packet allocSize self) ;;
     lift (Serial_println comm_freed)) ;;
  vTaskDelay (Z.quot 2500 portTICK_PERIOD_MS).

Definition CommTask_request (r1 r2 self : Z) : T (Z * Z) :=
  let allocSize := comm_allocSize r1 in
  lift (Serial_printf Heap comm_alloc_fmt [allocSize]) ;;
  packet <- lift (pvPortMallocWithQuota w pvPortMalloc allocSize self) ;;
  (if packet =? NULL then vTaskDelay (Z.quot 2500 portTICK_PERIOD_MS)
   else
     g <- read ;;
     lift (Serial_printf Heap comm_ok_fmt [commMemUsage g; COMM_TASK_QUOTA]) ;;
     stressStack (comm_stress r2) ;;
     vTaskDelay (Z.quot 800 portTICK_PERIOD_MS)) ;;
  tret (allocSize, packet).

Definition CommTask_release (allocSize packet self : Z) : T unit :=
  lift (vPortFreeWithTracking w vPortFree packet allocSize self) ;;
  lift (Serial_println comm_freed) ;;
  vTaskDelay (Z.quot 2500 portTICK_PERIOD_MS).

(** ** The monitors

    One turn of their loops; the values the kernel reports are arguments. *)
Definition HeapMonitorTask_iteration (freeHeap minHeap : Z) : T unit :=
  lift (Serial_printf Heap heap_monitor_fmt [freeHeap; minHeap]) ;;
  vTaskDelay (Z.quot 3000 portTICK_PERIOD_MS).

Definition StackMonitorTask_iteration (sensorStack commStack monitorStack : Z)
  : T unit :=
  lift (Serial_printf Heap stack_monitor_fmt
          [sensorStack; commStack; monitorStack]) ;;
  vTaskDelay (Z.quot 5000 portTICK_PERIOD_MS).

(** ** The four tasks together

    The tasks take turns; a turn runs one task from one [vTaskDelay] to the
    next.  Each workload task runs with its own handle, the one
    [xTaskCreate] stored for it, and remembers what it has in hand. *)
Inductive turn : Type :=
| SensorTurn (r1 r2 : Z)
| CommTurn (r1 r2 : Z)
| HeapMonitorTurn (freeHeap minHeap : Z)
| StackMonitorTurn (sensorStack commStack monitorStack : Z).

Record System : Type := mkSystem {
  node : Node;
  sensorHeld : option (Z * Z);    (* allocSize and data of SensorTask *)
  commHeld : option (Z * Z)       (* allocSize and packet of CommTask *)
}.

Definition in_hand (r : Z * Z) : option (Z * Z) :=
  if snd r =? NULL then None else Some r.

Definition wake (t : turn) (sys : System) : System :=
  match t with
  | SensorTurn r1 r2 =>
      let self := sensorTaskHandle (shared (node sys)) in
      match sensorHeld sys with
      | None =>
          let (r, n) := SensorTask_request r1 r2 self (node sys) in
          mkSystem n (in_hand r) (commHeld sys)
      | Some (allocSize, data) =>
          let (_, n) := SensorTask_release allocSize data self (node sys) in
          mkSystem n None (commHeld sys)
      end
  | CommTurn r1 r2 =>
      let self := commTaskHandle (shared (node sys)) in
      match commHeld sys with
      | None =>
          let (r, n) := CommTask_request r1 r2 self (node sys) in
          mkSystem n (sensorHeld sys) (in_hand r)
      | Some (allocSize, packet) =>
          let (_, n) := CommTask_release allocSize packet self (node sys) in
          mkSystem n (sensorHeld sys) None
      end
  | HeapMonitorTurn freeHeap minHeap =>
      let (_, n) := HeapMonitorTask_iteration freeHeap minHeap (node sys) in
      mkSystem n (sensorHeld sys) (commHeld sys)
  | StackMonitorTurn a b c =>
      let (_, n) := StackMonitorTask_iteration a b c (node sys) in
      mkSystem n (sensorHeld sys) (commHeld sys)
  end.

Definition turns (ts : list turn) (sys : System) : System :=
  fold_left (fun sys t => wake t sys) ts sys.

(** The node when the tasks start: nothing in hand, empty journal. *)
Definition started (g : World Heap) : System :=
  mkSystem (mkNode g []) None None.

Definition bytes_in_hand (held : option (Z * Z)) : Z :=
  match held with Some (allocSize, _) => allocSize | None => 0 end.

(** [rand()] returns a value between 0 and [RAND_MAX]. *)
Definition rand_ok (t : turn) : Prop :=
  match t with
  | SensorTurn r1 r2 | CommTurn r1 r2 => 0 <= r1 /\ 0 <= r2
  | _ => True
  end.

(** No line after the first [t0] of the trace tells the sensor task that
    its quota is exceeded. *)
Definition quiet (t0 : list event) (g : World Heap) : Prop :=
  exists evs,
    trace g = t0 ++ evs /\ existsb (is_rejection Sensor) evs = false.

(** Each counter is what its task has in hand; a task has in hand at most
    what one request can be; the sensor task was never turned down. *)
Definition settled (sh ch : Z) (t0 : list event) (sys : System) : Prop :=
  let g := shared (node sys) in
  sensorTaskHandle g = sh /\ commTaskHandle g = ch /\
  sensorMemUsage g = bytes_in_hand (sensorHeld sys) /\
  commMemUsage g = bytes_in_hand (commHeld sys) /\
  (forall sz d, sensorHeld sys = Some (sz, d) -> 256 <= sz <= 1279 /\ d <> NULL) /\
  (forall sz d, commHeld sys = Some (sz, d) -> 512 <= sz <= 2048 /\ d <> NULL) /\
  quiet t0 g.

(** ** The tasks as callers of the allocator

    What a turn asks of the two functions: a task with nothing in hand makes
    its request, a task with memory in hand releases it with the size and
    the handle of the request; the monitors ask nothing. *)
Definition call_of (t : turn) (sys : System) : list call :=
  match t with
  | SensorTurn r1 _ =>
      let self := sensorTaskHandle (shared (node sys)) in
      match sensorHeld sys with
      | None => [Alloc (sensor_allocSize r1) self]
      | Some (allocSize, data) => [Release data allocSize self]
      end
  | CommTurn r1 _ =>
      let self := commTaskHandle (shared (node sys)) in
      match commHeld sys with
      | None => [Alloc (comm_allocSize r1) self]
      | Some (allocSize, packet) => [Release packet allocSize self]
      end
  | HeapMonitorTurn _ _ | StackMonitorTurn _ _ _ => []
  end.

Fixpoint calls_of (ts : list turn) (sys : System) : list call :=
  match ts with
  | [] => []
  | t :: ts' => call_of t sys ++ calls_of ts' (wake t sys)
  end.

(** The records of what the two tasks have in hand. *)
Definition records (sys : System) : list record :=
  match sensorHeld sys with
  | Some (allocSize, data) =>
      [(data, allocSize, sensorTaskHandle (shared (node sys)))]
  | None => []
  end ++
  match commHeld sys with
  | Some (allocSize, packet) =>
      [(packet, allocSize, commTaskHandle (shared (node sys)))]
  | None => []
  end.

(** The same globals, the serial output apart. *)
Definition agree (s s' : World Heap) : Prop :=
  sensorTaskHandle s = sensorTaskHandle s' /\
  commTaskHandle s = commTaskHandle s' /\
  sensorMemUsage s = sensorMemUsage s' /\
  commMemUsage s = commMemUsage s' /\
  heap s = heap s'.


End Tasks.

Arguments mkNode {Heap}.
Arguments shared {Heap}.
Arguments journal {Heap}.
Arguments stressStack {Heap}.
Arguments stressStack_fuel {Heap}.
Arguments SensorTask_iteration w {Heap}.
Arguments SensorTask_request w {Heap}.
Arguments SensorTask_release w {Heap}.
Arguments CommTask_iteration w {Heap}.
Arguments CommTask_request w {Heap}.
Arguments CommTask_release w {Heap}.
Arguments HeapMonitorTask_iteration {Heap}.
Arguments StackMonitorTask_iteration {Heap}.
Arguments mkSystem {Heap}.
Arguments node {Heap}.
Arguments sensorHeld {Heap}.
Arguments commHeld {Heap}.
Arguments wake w {Heap}.
Arguments turns w {Heap}.
Arguments started {Heap}.
Arguments quiet {Heap}.
Arguments settled {Heap}.

Arguments call_of w {Heap}.
Arguments calls_of w {Heap}.
Arguments records {Heap}.
Arguments agree {Heap}.

(** ** A heap provider to run the model on

    A bump allocator over [cap] bytes starting at address 4096: the state is
    the number of bytes handed out so far, and nothing is ever reused. *)

Definition arena_malloc (cap : Z) (size : Z) (brk : nat) : Z * nat :=
  if Z.of_nat brk + size <=? cap
  then (4096 + Z.of_nat brk, Z.to_nat (Z.of_nat brk + size))
  else (NULL, brk).

Definition arena_free (ptr : Z) (brk : nat) : nat := brk.

(** The globals once [setup] has run: two distinct task handles, both
    counters at zero, nothing printed yet. *)
Definition boot (brk : nat) : World nat :=
  mkWorld 11 22 0 0 brk [].

(** The calls of two tasks, one after the other: each allocates and
    releases, the sensor task twice (its second request is refused). *)
Definition two_tasks : list call :=
  [ Alloc 1280 11; Alloc 600 22; Alloc 1024 11;
    Release 4096 1280 11; Alloc 1024 11; Release 5376 600 22;
    Release 5976 1024 11 ].

(** Three tasks racing: two allocations for the sensor unit that do not fit
    together, and a release of NULL; task 1 asks for the mutex while task 0
    holds it. *)
Definition race3 : list call :=
  [Alloc 1280 11; Alloc 1024 11; Release 0 64 22].

Definition sched3 : list nat :=
  [0; 1; 0; 2; 1; 0; 0; 1; 0; 1; 0; 1; 1; 1; 1; 1; 0]%nat.

(** The sensor unit with 1280 bytes in use. *)
Definition loaded : World nat :=
  mkWorld 11 22 1280 0 1280%nat [].

(** Eight turns of the four tasks: the second request of the communication
    task is for 2512 bytes. *)
Definition day : list turn :=
  [SensorTurn 1000 5; CommTurn 2000 7; HeapMonitorTurn 7000 6000;
   CommTurn 100 2; SensorTurn 3 3; StackMonitorTurn 300 200 100;
   SensorTurn 1023 0; CommTurn 5 5].

(** ** Properties of the allocator *)

Section QuotaAllocatorFacts.

Variable w : Z.
Variable Heap : Type.
Variable pvPortMalloc : Z -> Heap -> Z * Heap.
Variable vPortFree : Z -> Heap -> Heap.

Implicit Types (s : World Heap) (u : unit_id) (size ptr h : Z).

(** *** The two functions, one unit at a time *)

Lemma unit_of_sensor s h :
  h = sensorTaskHandle s -> unit_of h s = Some Sensor.
Proof. intros ->. unfold unit_of. now rewrite Z.eqb_refl. Qed.

Lemma unit_of_comm s h :
  h = commTaskHandle s -> sensorTaskHandle s <> commTaskHandle s ->
  unit_of h s = Some Comm.
Proof.
  intros -> Hne. unfold unit_of.
  destruct (Z.eqb_spec (commTaskHandle s) (sensorTaskHandle s)); [congruence|].
  now rewrite Z.eqb_refl.
Qed.

Lemma unit_of_none s h :
  h <> sensorTaskHandle s -> h <> commTaskHandle s -> unit_of h s = None.
Proof.
  intros H1 H2. unfold unit_of.
  destruct (Z.eqb_spec h (sensorTaskHandle s)); [congruence|].
  destruct (Z.eqb_spec h (commTaskHandle s)); [congruence|reflexivity].
Qed.

Ltac unit_cases h s :=
  unfold unit_of in *;
  destruct (h =? sensorTaskHandle s) eqn:?;
  [| destruct (h =? commTaskHandle s) eqn:?]; try discriminate.

Lemma malloc_registered s size h u :
  unit_of h s = Some u ->
  pvPortMallocWithQuota w pvPortMalloc size h s =
  if size_add w (used u s) size <=? quota_of u then
    let (p, hp) := pvPortMalloc size (heap s) in
    (p, log SemaphoreGive
          ((if p =? NULL then fun x => x
            else set_used u (size_add w (used u s) size))
             (log (PortMalloc size p) (set_heap hp (log SemaphoreTake s)))))
  else
    (NULL, log SemaphoreGive
             (log (SerialPrintf (fmt_of u) [size; used u s; quota_of u])
                  (log SemaphoreTake s))).
Proof.
  intros Hu.
  unfold pvPortMallocWithQuota, bind, get, ret, xSemaphoreTake,
    xSemaphoreGive, modify, call_pvPortMalloc, Serial_printf. cbn.
  unit_cases h s; injection Hu as <-; cbn.
  - destruct (_ <=? SENSOR_TASK_QUOTA); cbn; [|reflexivity].
    destruct (pvPortMalloc size (heap s)) as [p hp]; cbn.
    destruct (p =? NULL); reflexivity.
  - destruct (_ <=? COMM_TASK_QUOTA); cbn; [|reflexivity].
    destruct (pvPortMalloc size (heap s)) as [p hp]; cbn.
    destruct (p =? NULL); reflexivity.
Qed.

Lemma malloc_unregistered s size h :
  unit_of h s = None ->
  pvPortMallocWithQuota w pvPortMalloc size h s =
  (NULL, log SemaphoreGive (log SemaphoreTake s)).
Proof.
  intros Hu.
  unfold pvPortMallocWithQuota, bind, get, ret, xSemaphoreTake,
    xSemaphoreGive, modify. cbn.
  unit_cases h s. reflexivity.
Qed.

Lemma free_null s size h :
  vPortFreeWithTracking w vPortFree NULL size h s = (tt, s).
Proof. reflexivity. Qed.

Lemma free_registered s ptr size h u :
  ptr <> NULL -> unit_of h s = Some u ->
  vPortFreeWithTracking w vPortFree ptr size h s =
  (tt, log SemaphoreGive
         (set_used u (size_sub w (used u s) size)
            (log (PortFree ptr)
               (set_heap (vPortFree ptr (heap s)) (log SemaphoreTake s))))).
Proof.
  intros Hp Hu. unfold vPortFreeWithTracking.
  destruct (Z.eqb_spec ptr NULL); [contradiction|].
  unfold bind, get, ret, xSemaphoreTake, xSemaphoreGive, modify,
    call_vPortFree. cbn.
  unit_cases h s; injection Hu as <-; reflexivity.
Qed.

Lemma free_unregistered s ptr size h :
  ptr <> NULL -> unit_of h s = None ->
  vPortFreeWithTracking w vPortFree ptr size h s =
  (tt, log SemaphoreGive
         (log (PortFree ptr)
            (set_heap (vPortFree ptr (heap s)) (log SemaphoreTake s)))).
Proof.
  intros Hp Hu. unfold vPortFreeWithTracking.
  destruct (Z.eqb_spec ptr NULL); [contradiction|].
  unfold bind, get, ret, xSemaphoreTake, xSemaphoreGive, modify,
    call_vPortFree. cbn.
  unit_cases h s. reflexivity.
Qed.

(** *** Reading the ledger through the setters *)

Lemma used_log u e s : used u (log e s) = used u s.
Proof. now destruct u. Qed.

Lemma used_set_heap u hp s : used u (set_heap hp s) = used u s.
Proof. now destruct u. Qed.

Lemma used_set_used u v s : used u (set_used u v s) = v.
Proof. now destruct u. Qed.

Lemma used_set_other u v s : used (other u) (set_used u v s) = used (other u) s.
Proof. now destruct u. Qed.

Lemma unit_of_log h e s : unit_of h (log e s) = unit_of h s.
Proof. reflexivity. Qed.

Lemma unit_of_set_heap h hp s : unit_of h (set_heap hp s) = unit_of h s.
Proof. reflexivity. Qed.

Lemma unit_of_set_used h u v s : unit_of h (set_used u v s) = unit_of h s.
Proof. now destruct u. Qed.

Lemma emitted_app s s' evs : trace s' = trace s ++ evs -> emitted s s' = evs.
Proof.
  intros E. unfold emitted. rewrite E, skipn_app, skipn_all, Nat.sub_diag.
  reflexivity.
Qed.

Lemma size_max_large : 16 <= w -> 65536 <= size_max w.
Proof.
  intros Hw. unfold size_max. change 65536 with (2 ^ 16).
  apply Z.pow_le_mono_r; lia.
Qed.

(** *** Single calls *)

(** C7. Releasing a null pointer does nothing: the world is returned as it
    was, so no semaphore call, no heap call and no change to either
    counter. *)
Theorem release_null_is_noop s size h :
  let s' := snd (vPortFreeWithTracking w vPortFree NULL size h s) in
  s' = s /\ emitted s s' = [] /\ heap s' = heap s /\
  sensorMemUsage s' = sensorMemUsage s /\ commMemUsage s' = commMemUsage s.
Proof.
  cbn. repeat split. unfold emitted. apply skipn_all.
Qed.

(** C9. With a handle that is neither task's, the allocator takes and gives
    the mutex and returns NULL: the heap is not called, nothing is printed,
    no counter moves.  The release with such a handle leaves both counters
    alone, and hands a non-null pointer to [vPortFree]. *)
Theorem unregistered_handle s size ptr h :
  h <> sensorTaskHandle s -> h <> commTaskHandle s ->
  let r := pvPortMallocWithQuota w pvPortMalloc size h s in
  let s2 := snd (vPortFreeWithTracking w vPortFree ptr size h s) in
  fst r = NULL /\
  emitted s (snd r) = [SemaphoreTake; SemaphoreGive] /\
  heap (snd r) = heap s /\
  sensorMemUsage (snd r) = sensorMemUsage s /\
  commMemUsage (snd r) = commMemUsage s /\
  sensorMemUsage s2 = sensorMemUsage s /\
  commMemUsage s2 = commMemUsage s /\
  (ptr <> NULL ->
   emitted s s2 = [SemaphoreTake; PortFree ptr; SemaphoreGive] /\
   heap s2 = vPortFree ptr (heap s)).
Proof.
  intros Hs Hc. pose proof (unit_of_none s h Hs Hc) as Hn. cbv zeta.
  rewrite (malloc_unregistered s size h Hn). cbn [fst snd].
  split; [reflexivity|]. split; [|split; [reflexivity|]].
  2: split; [reflexivity|]; split; [reflexivity|]; split; [|split].
  - apply emitted_app. cbn. now rewrite <- app_assoc.
  - destruct (Z.eq_dec ptr NULL) as [->|Hp]; [reflexivity|].
    now rewrite (free_unregistered s ptr size h Hp Hn).
  - destruct (Z.eq_dec ptr NULL) as [->|Hp]; [reflexivity|].
    now rewrite (free_unregistered s ptr size h Hp Hn).
  - intros Hp. rewrite (free_unregistered s ptr size h Hp Hn). split.
    + apply emitted_app. cbn. now rewrite <- !app_assoc.
    + reflexivity.
Qed.

Lemma other_unit_untouched s size ptr h u :
  unit_of h s = Some u ->
  used (other u) (snd (pvPortMallocWithQuota w pvPortMalloc size h s))
    = used (other u) s /\
  used (other u) (snd (vPortFreeWithTracking w vPortFree ptr size h s))
    = used (other u) s.
Proof.
  intros Hu. split.
  - rewrite (malloc_registered s size h u Hu).
    destruct (_ <=? _).
    + destruct (pvPortMalloc size (heap s)) as [p hp]. cbn [snd].
      rewrite used_log. destruct (p =? NULL).
      * now rewrite used_log, used_set_heap, used_log.
      * now rewrite used_set_other, used_log, used_set_heap, used_log.
    + cbn [snd]. now rewrite !used_log.
  - destruct (Z.eq_dec ptr NULL) as [->|Hp]; [reflexivity|].
    rewrite (free_registered s ptr size h u Hp Hu). cbn [snd].
    now rewrite used_log, used_set_other, used_log, used_set_heap, used_log.
Qed.

(** C5. A call with the handle of the sensor task leaves [commMemUsage] as
    it was, and a call with the handle of the comm task (a task other than
    the sensor task) leaves [sensorMemUsage] as it was; this holds for the
    allocation and for the release, whatever the size and the pointer. *)
Theorem isolation s size ptr h :
  let s1 := snd (pvPortMallocWithQuota w pvPortMalloc size h s) in
  let s2 := snd (vPortFreeWithTracking w vPortFree ptr size h s) in
  (h = sensorTaskHandle s ->
   commMemUsage s1 = commMemUsage s /\ commMemUsage s2 = commMemUsage s) /\
  (h = commTaskHandle s -> sensorTaskHandle s <> commTaskHandle s ->
   sensorMemUsage s1 = sensorMemUsage s /\
   sensorMemUsage s2 = sensorMemUsage s).
Proof.
  cbv zeta. split.
  - intros Hs.
    exact (other_unit_untouched s size ptr h Sensor (unit_of_sensor s h Hs)).
  - intros Hc Hne.
    exact (other_unit_untouched s size ptr h Comm (unit_of_comm s h Hc Hne)).
Qed.

(** C10. The release does not clamp: with a non-null pointer the counter of
    the unit becomes [used - size] modulo [2^w]; when [size] is larger than
    [used] that is [used - size + 2^w], which is not 0. *)
Theorem release_wraps s ptr size h u :
  ptr <> NULL -> unit_of h s = Some u ->
  is_size_t w (used u s) -> is_size_t w size -> used u s < size ->
  let s' := snd (vPortFreeWithTracking w vPortFree ptr size h s) in
  used u s' = (used u s - size) mod 2 ^ w /\
  used u s' = used u s - size + 2 ^ w /\
  used u s' <> 0.
Proof.
  intros Hp Hu [HU0 HU1] [HS0 HS1] Hlt. cbv zeta.
  rewrite (free_registered s ptr size h u Hp Hu). cbn [snd].
  rewrite used_log, used_set_used. unfold size_sub, size_max in *.
  assert (E : (used u s - size) mod 2 ^ w = used u s - size + 2 ^ w).
  { symmetry. apply (Z.mod_unique _ _ (-1)); lia. }
  rewrite E. repeat split; lia.
Qed.

(** C6 (amended). When the quota test passes and [pvPortMalloc] returns
    NULL, the allocator returns NULL and leaves both counters as they were;
    the only calls it made are the take, the failed [pvPortMalloc] and the
    give: no diagnostic line is printed on this path. *)
Theorem out_of_memory_is_silent s size h u :
  unit_of h s = Some u ->
  size_add w (used u s) size <= quota_of u ->
  fst (pvPortMalloc size (heap s)) = NULL ->
  let r := pvPortMallocWithQuota w pvPortMalloc size h s in
  fst r = NULL /\
  used u (snd r) = used u s /\
  used (other u) (snd r) = used (other u) s /\
  emitted s (snd r) = [SemaphoreTake; PortMalloc size NULL; SemaphoreGive] /\
  reported s (snd r) = false.
Proof.
  intros Hu Hq Hnull. cbv zeta.
  rewrite (malloc_registered s size h u Hu).
  apply Z.leb_le in Hq. rewrite Hq.
  destruct (pvPortMalloc size (heap s)) as [p hp]. cbn [fst] in Hnull.
  subst p. rewrite Z.eqb_refl. cbn [fst snd]. unfold NULL.
  assert (E : emitted s
                (log SemaphoreGive
                   (log (PortMalloc size 0) (set_heap hp (log SemaphoreTake s))))
              = [SemaphoreTake; PortMalloc size 0; SemaphoreGive]).
  { apply emitted_app. cbn. now rewrite <- !app_assoc. }
  unfold reported. rewrite E.
  rewrite !used_log, !used_set_heap, !used_log. repeat split.
Qed.

(** C8. The scenario of the spec, for either unit: from usage 0 and with a
    heap that serves the request, 1280 bytes are granted and usage is 1280;
    1024 more are refused (the heap is not asked) and usage stays 1280;
    releasing the 1280 bytes brings usage back to 0. *)
Theorem scenario_2048 s h u p hp :
  16 <= w ->
  unit_of h s = Some u ->
  used u s = 0 ->
  pvPortMalloc 1280 (heap s) = (p, hp) -> p <> NULL ->
  let r1 := pvPortMallocWithQuota w pvPortMalloc 1280 h s in
  let r2 := pvPortMallocWithQuota w pvPortMalloc 1024 h (snd r1) in
  let s3 := snd (vPortFreeWithTracking w vPortFree (fst r1) 1280 h (snd r2)) in
  fst r1 = p /\ used u (snd r1) = 1280 /\
  fst r2 = NULL /\ used u (snd r2) = 1280 /\
  existsb is_heap_call (emitted (snd r1) (snd r2)) = false /\
  used u s3 = 0.
Proof.
  intros Hw Hu H0 Hm Hp. pose proof (size_max_large Hw) as Hbig.
  cbv zeta.
  rewrite (malloc_registered s 1280 h u Hu), H0, Hm.
  assert (A1 : size_add w 0 1280 = 1280)
    by (unfold size_add; apply Z.mod_small; lia).
  rewrite A1.
  replace (1280 <=? quota_of u) with true by (now destruct u).
  destruct (Z.eqb_spec p NULL) as [|_]; [contradiction|].
  cbn [fst snd].
  set (s1 := log SemaphoreGive _).
  assert (U1 : used u s1 = 1280).
  { unfold s1. now rewrite used_log, used_set_used. }
  assert (Hu1 : unit_of h s1 = Some u).
  { unfold s1. now rewrite unit_of_log, unit_of_set_used. }
  rewrite (malloc_registered s1 1024 h u Hu1), U1.
  assert (A2 : size_add w 1280 1024 = 2304)
    by (unfold size_add; apply Z.mod_small; lia).
  rewrite A2.
  replace (2304 <=? quota_of u) with false by (now destruct u).
  cbn [fst snd].
  set (s2 := log SemaphoreGive _).
  assert (U2 : used u s2 = 1280).
  { unfold s2. now rewrite !used_log. }
  assert (Hu2 : unit_of h s2 = Some u) by exact Hu1.
  rewrite (free_registered s2 p 1280 h u Hp Hu2). cbn [snd].
  rewrite used_log, used_set_used, U2.
  assert (E : emitted s1 s2 =
              [SemaphoreTake;
               SerialPrintf (fmt_of u) [1024; 1280; quota_of u];
               SemaphoreGive]).
  { apply emitted_app. unfold s2. cbn. now rewrite <- !app_assoc. }
  rewrite E.
  assert (A3 : size_sub w 1280 1280 = 0)
    by (unfold size_sub; apply Z.mod_small; lia).
  rewrite A3. repeat split.
Qed.

Lemma size_add_cases a b :
  is_size_t w a -> is_size_t w b ->
  (a + b < size_max w /\ size_add w a b = a + b) \/
  (size_max w <= a + b /\ size_add w a b = a + b - size_max w).
Proof.
  intros [Ha0 Ha1] [Hb0 Hb1]. unfold size_add.
  destruct (Z_lt_le_dec (a + b) (size_max w)) as [Hlt|Hge].
  - left. split; [assumption|]. apply Z.mod_small. lia.
  - right. split; [assumption|]. symmetry.
    apply (Z.mod_unique _ _ 1); lia.
Qed.

Lemma quota_of_value u : quota_of u = 2048.
Proof. now destruct u. Qed.

(** C1 (amended). On a device whose heap fits the address space, for a unit
    within its quota: the allocation succeeds exactly when [used + size] is
    within the quota and [pvPortMalloc] returns memory.  On success the
    counter grows by [size]; on failure it is unchanged; and a request that
    would exceed the quota fails. *)
Theorem quota_decides s size h u heapSize :
  heap_fits w pvPortMalloc heapSize ->
  unit_of h s = Some u ->
  0 <= used u s <= quota_of u ->
  is_size_t w size ->
  let r := pvPortMallocWithQuota w pvPortMalloc size h s in
  (fst r <> NULL <->
   used u s + size <= quota_of u /\
   fst (pvPortMalloc size (heap s)) <> NULL) /\
  (fst r <> NULL -> used u (snd r) = used u s + size) /\
  (fst r = NULL -> used u (snd r) = used u s) /\
  (quota_of u < used u s + size ->
   fst r = NULL /\ used u (snd r) = used u s).
Proof.
  clear vPortFree. intros (Hcap0 & Hcap & Hfit) Hu HU HS. cbv zeta.
  rewrite (malloc_registered s size h u Hu).
  specialize (Hfit size (heap s)).
  rewrite quota_of_value in HU |- *.
  assert (HU' : is_size_t w (used u s)) by (unfold is_size_t; lia).
  pose proof (size_add_cases _ _ HU' HS) as Hadd.
  destruct HS as [HS0 HS1].
  destruct (pvPortMalloc size (heap s)) as [p hp]. cbn [fst] in Hfit |- *.
  destruct (Z.leb_spec (size_add w (used u s) size) 2048) as [Hle|Hgt].
  - destruct (Z.eqb_spec p NULL) as [Hp|Hp]; cbn [fst snd].
    + rewrite !used_log, used_set_heap, used_log.
      repeat split; intros; try tauto; try lia.
    + specialize (Hfit Hp).
      rewrite used_log, used_set_used.
      repeat split; intros; try tauto; try lia.
  - cbn [fst snd]. rewrite !used_log.
    repeat split; intros; try tauto; try lia.
Qed.

(** *** What one call does to the ledger *)

Lemma used_set_used_cases u v x s :
  used u (set_used v x s) = if unit_eqb u v then x else used u s.
Proof. now destruct u, v. Qed.

Lemma unit_eqb_refl u : unit_eqb u u = true.
Proof. now destruct u. Qed.

Lemma malloc_effect s size h :
  exists p s',
    pvPortMallocWithQuota w pvPortMalloc size h s = (p, s') /\
    (forall h', unit_of h' s' = unit_of h' s) /\
    ((p = NULL /\ forall u, used u s' = used u s) \/
     (p <> NULL /\
      exists v, unit_of h s = Some v /\
                fst (pvPortMalloc size (heap s)) = p /\
                size_add w (used v s) size <= quota_of v /\
                forall u, used u s' =
                          if unit_eqb u v then size_add w (used v s) size
                          else used u s)).
Proof.
  destruct (unit_of h s) as [v|] eqn:Hv.
  - rewrite (malloc_registered s size h v Hv).
    destruct (Z.leb_spec (size_add w (used v s) size) (quota_of v)) as [Hle|Hgt].
    + destruct (pvPortMalloc size (heap s)) as [p hp].
      destruct (Z.eqb_spec p NULL) as [Hp|Hp].
      * eexists _, _. split; [reflexivity|]. split; [reflexivity|].
        left. split; [assumption|]. intros u.
        now rewrite !used_log, used_set_heap.
      * eexists _, _. split; [reflexivity|]. split.
        { intros h'. now rewrite unit_of_log, unit_of_set_used. }
        right. split; [assumption|]. exists v. repeat split; try assumption.
        intros u. rewrite used_log, used_set_used_cases.
        now rewrite used_log, used_set_heap, used_log.
    + eexists _, _. split; [reflexivity|]. split; [reflexivity|].
      left. split; [reflexivity|]. intros u. now rewrite !used_log.
  - rewrite (malloc_unregistered s size h Hv).
    eexists _, _. split; [reflexivity|]. split; [reflexivity|].
    left. split; [reflexivity|]. intros u. now rewrite !used_log.
Qed.

Lemma free_effect s ptr size h :
  ptr <> NULL ->
  let s' := snd (vPortFreeWithTracking w vPortFree ptr size h s) in
  (forall h', unit_of h' s' = unit_of h' s) /\
  forall u, used u s' =
            match unit_of h s with
            | Some v => if unit_eqb u v then size_sub w (used v s) size
                        else used u s
            | None => used u s
            end.
Proof.
  intros Hp. cbv zeta. destruct (unit_of h s) as [v|] eqn:Hv.
  - rewrite (free_registered s ptr size h v Hp Hv). cbn [snd]. split.
    + intros h'. now rewrite unit_of_log, unit_of_set_used.
    + intros u. rewrite used_log, used_set_used_cases.
      now rewrite used_log, used_set_heap, used_log.
  - rewrite (free_unregistered s ptr size h Hp Hv). cbn [snd]. split.
    + reflexivity.
    + intros u. now rewrite !used_log, used_set_heap.
Qed.

(** *** The records held by the callers *)

Lemma charge_ext u s s' r :
  (forall h, unit_of h s' = unit_of h s) -> charge u s' r = charge u s r.
Proof. intros E. destruct r as [[p n] h]. unfold charge. now rewrite E. Qed.

Lemma owed_ext u s s' out :
  (forall h, unit_of h s' = unit_of h s) -> owed u s' out = owed u s out.
Proof.
  intros E. induction out as [|r out IH]; cbn; [reflexivity|].
  now rewrite IH, (charge_ext u s s' r E).
Qed.

Lemma record_eqb_eq a b : record_eqb a b = true -> a = b.
Proof.
  destruct a as [[p n] h], b as [[p' n'] h']. unfold record_eqb.
  rewrite !andb_true_iff, !Z.eqb_eq. intros [[-> ->] ->]. reflexivity.
Qed.

Lemma holds_In r out : holds r out = true -> In r out.
Proof.
  induction out as [|x out IH]; cbn; [discriminate|].
  destruct (record_eqb r x) eqn:E; cbn.
  - intros _. left. symmetry. now apply record_eqb_eq.
  - intros H. right. now apply IH.
Qed.

Lemma owed_drop u s r out :
  holds r out = true -> owed u s (drop r out) = owed u s out - charge u s r.
Proof.
  induction out as [|x out IH]; cbn; [discriminate|].
  destruct (record_eqb r x) eqn:E; cbn.
  - intros _. apply record_eqb_eq in E. subst x. lia.
  - intros H. rewrite (IH H). lia.
Qed.

Lemma Forall_drop (P : record -> Prop) r out :
  Forall P out -> Forall P (drop r out).
Proof.
  induction 1 as [|x out Hx Hout IH]; cbn; [constructor|].
  destruct (record_eqb r x); [assumption|]. now constructor.
Qed.

Lemma charge_nonneg u s r : record_ok r -> 0 <= charge u s r.
Proof.
  destruct r as [[p n] h]. intros [_ Hn]. unfold charge.
  destruct (unit_of h s) as [v|]; [|lia]. destruct (unit_eqb u v); lia.
Qed.

Lemma owed_nonneg u s out : Forall record_ok out -> 0 <= owed u s out.
Proof.
  induction 1 as [|r out Hr Hout IH]; cbn; [lia|].
  pose proof (charge_nonneg u s r Hr). lia.
Qed.

Lemma unit_eqb_eq u v : unit_eqb u v = true -> u = v.
Proof. now destruct u, v. Qed.

Lemma record_ok_ptr r : record_ok r -> fst (fst r) <> NULL.
Proof. destruct r as [[p n] h]. now intros [Hp _]. Qed.

(** *** Sequences of calls *)

(** The counter of a unit follows, modulo [2^w], the bytes of the records
    its callers hold. *)
Lemma held_balance u cs :
  forall out s out',
    used u s = owed u s out mod size_max w ->
    Forall (fun r => fst (fst r) <> NULL) out ->
    held w pvPortMalloc vPortFree out cs s = Some out' ->
    used u (run w pvPortMalloc vPortFree cs s)
    = owed u (run w pvPortMalloc vPortFree cs s) out' mod size_max w.
Proof.
  induction cs as [|c cs IH]; intros out s out' Hbal Hptr Hheld.
  - cbn in *. now injection Hheld as <-.
  - destruct c as [size h | ptr size h]; cbn [held run fold_left exec] in *.
    + destruct (malloc_effect s size h) as (p & s' & E & Hh & Hcase).
      rewrite E in *. cbn [snd]. fold (run w pvPortMalloc vPortFree cs s').
      refine (IH _ s' out' _ _ Hheld).
      * destruct Hcase as [[-> Hsame] | (Hp & v & Hv & _ & _ & Hupd)].
        { cbn. now rewrite Hsame, (owed_ext u s s' out Hh). }
        destruct (Z.eqb_spec p NULL) as [|_]; [contradiction|].
        cbn [owed charge]. rewrite Hh, Hv, Hupd, (owed_ext u s s' out Hh).
        destruct (unit_eqb u v) eqn:Euv.
        { apply unit_eqb_eq in Euv. subst v. rewrite Hbal.
          unfold size_add. rewrite Zplus_mod_idemp_l. f_equal. lia. }
        { now rewrite Hbal. }
      * destruct (p =? NULL) eqn:Ep; [assumption|].
        constructor; [|assumption]. cbn. now apply Z.eqb_neq.
    + destruct (holds (ptr, size, h) out) eqn:Hin; [|discriminate].
      pose proof (holds_In _ _ Hin) as HIn.
      assert (Hp : ptr <> NULL).
      { rewrite Forall_forall in Hptr. exact (Hptr _ HIn). }
      destruct (free_effect s ptr size h Hp) as [Hh Hupd]. cbv zeta in *.
      set (s' := snd (vPortFreeWithTracking w vPortFree ptr size h s)) in *.
      fold (run w pvPortMalloc vPortFree cs s').
      refine (IH _ s' out' _ _ Hheld).
      * rewrite (owed_ext u s s' _ Hh), (owed_drop u s _ _ Hin), Hupd.
        cbn [charge]. destruct (unit_of h s) as [v|]; [|now rewrite Z.sub_0_r].
        destruct (unit_eqb u v) eqn:Euv; [|now rewrite Z.sub_0_r].
        apply unit_eqb_eq in Euv. subst v. rewrite Hbal.
        unfold size_sub. now rewrite Zminus_mod_idemp_l.
      * now apply Forall_drop.
Qed.

(** C3. Along a sequence of calls that keeps the caller contract and ends
    with no record held (every successful allocation was released once, with
    its size and handle), a counter that started at 0 is 0 again. *)
Theorem conservation cs s0 u :
  used u s0 = 0 ->
  held w pvPortMalloc vPortFree [] cs s0 = Some [] ->
  used u (run w pvPortMalloc vPortFree cs s0) = 0.
Proof.
  intros H0 Hheld.
  assert (Hbal : used u s0 = owed u s0 [] mod size_max w).
  { rewrite H0. symmetry. exact (Zmod_0_l (size_max w)). }
  rewrite (held_balance u cs [] s0 [] Hbal (Forall_nil _) Hheld).
  exact (Zmod_0_l (size_max w)).
Qed.

(** On a device whose heap fits the address space no addition wraps, and
    the counter of a unit is exactly the bytes its callers hold. *)
Lemma held_within_quota u heapSize cs :
  heap_fits w pvPortMalloc heapSize ->
  forall out s n,
    sizes_ok w cs ->
    used u s = owed u s out ->
    owed u s out <= quota_of u ->
    Forall record_ok out ->
    held w pvPortMalloc vPortFree out cs s <> None ->
    0 <= used u (run w pvPortMalloc vPortFree (firstn n cs) s) <= quota_of u.
Proof.
  intros (Hcap0 & Hcap & Hfit).
  induction cs as [|c cs IH]; intros out s n Hsz Hbal Hle Hok Hheld.
  - rewrite firstn_nil. cbn. rewrite Hbal.
    pose proof (owed_nonneg u s out Hok). lia.
  - destruct n as [|n].
    { cbn. rewrite Hbal. pose proof (owed_nonneg u s out Hok). lia. }
    inversion Hsz as [|? ? Hc Hcs]; subst.
    destruct c as [size h | ptr size h];
      cbn [held firstn run fold_left exec] in *.
    + destruct (malloc_effect s size h) as (p & s' & E & Hh & Hcase).
      rewrite E in *. cbn [snd].
      fold (run w pvPortMalloc vPortFree (firstn n cs) s').
      destruct Hcase as [[-> Hsame] | (Hp & v & Hv & Hm & Hq & Hupd)].
      * refine (IH out s' n Hcs _ _ Hok Hheld);
          rewrite (owed_ext u s s' out Hh); [now rewrite Hsame | assumption].
      * destruct (Z.eqb_spec p NULL) as [|_]; [contradiction|].
        assert (Hsmall : size <= heapSize).
        { apply (Hfit size (heap s)). now rewrite Hm. }
        assert (Hch : owed u s' ((p, size, h) :: out)
                      = (if unit_eqb u v then size else 0) + owed u s out).
        { cbn [owed charge]. now rewrite Hh, Hv, (owed_ext u s s' out Hh). }
        pose proof (owed_nonneg u s out Hok) as Hge.
        rewrite quota_of_value in *. destruct Hc as [Hc0 Hc1].
        refine (IH ((p, size, h) :: out) s' n Hcs _ _ _ Hheld).
        { rewrite Hch, Hupd. destruct (unit_eqb u v) eqn:Euv; [|assumption].
          apply unit_eqb_eq in Euv. subst v. rewrite Hbal.
          unfold size_add. rewrite Z.mod_small; lia. }
        { rewrite Hch. destruct (unit_eqb u v) eqn:Euv; [|lia].
          apply unit_eqb_eq in Euv. subst v. rewrite Hbal in Hq.
          unfold size_add in Hq. rewrite Z.mod_small in Hq; lia. }
        { constructor; [|assumption]. split; assumption. }
    + destruct (holds (ptr, size, h) out) eqn:Hin; [|congruence].
      pose proof (holds_In _ _ Hin) as HIn.
      assert (Hrec : record_ok (ptr, size, h)).
      { rewrite Forall_forall in Hok. exact (Hok _ HIn). }
      destruct Hrec as [Hp Hsize].
      destruct (free_effect s ptr size h Hp) as [Hh Hupd]. cbv zeta in *.
      set (s' := snd (vPortFreeWithTracking w vPortFree ptr size h s)) in *.
      fold (run w pvPortMalloc vPortFree (firstn n cs) s').
      pose proof (Forall_drop record_ok (ptr, size, h) out Hok) as Hok'.
      pose proof (owed_nonneg u s _ Hok') as Hge'.
      pose proof (owed_drop u s _ _ Hin) as Hdrop.
      rewrite quota_of_value in *.
      refine (IH _ s' n Hcs _ _ Hok' Hheld);
        rewrite (owed_ext u s s' _ Hh); [|pose proof (charge_nonneg u s (ptr, size, h) (conj Hp Hsize)); lia].
      rewrite Hdrop, Hupd. cbn [charge] in *.
      destruct (unit_of h s) as [v|]; [|lia].
      destruct (unit_eqb u v) eqn:Euv; [|lia].
      apply unit_eqb_eq in Euv. subst v. rewrite Hbal.
      unfold size_sub. rewrite Z.mod_small; lia.
Qed.

(** C2. On a device whose heap fits the address space, along any sequence of
    calls that keeps the caller contract, a counter that started at 0 stays
    between 0 and the quota of its unit after every call. *)
Theorem usage_within_quota cs s0 u heapSize n :
  heap_fits w pvPortMalloc heapSize ->
  sizes_ok w cs ->
  used u s0 = 0 ->
  held w pvPortMalloc vPortFree [] cs s0 <> None ->
  0 <= used u (run w pvPortMalloc vPortFree (firstn n cs) s0) <= quota_of u.
Proof.
  intros Hfit Hsz H0 Hheld.
  apply (held_within_quota u heapSize cs Hfit [] s0 n Hsz); cbn;
    try assumption.
  - rewrite quota_of_value. lia.
  - constructor.
Qed.

(** *** Preemption: a call step by step *)

Lemma finish_done n p g :
  is_done p = true -> finish w pvPortMalloc vPortFree n p g = (p, g).
Proof.
  induction n as [|n IH]; [reflexivity|].
  destruct p; try discriminate; intros _; cbn [finish mstep]; now apply IH.
Qed.

Lemma steps_left_done p : steps_left p = 0%nat -> is_done p = true.
Proof. now destruct p. Qed.

Lemma mstep_decreases p g :
  is_done p = false ->
  (steps_left (fst (mstep w pvPortMalloc vPortFree p g)) < steps_left p)%nat.
Proof.
  destruct p; try discriminate; intros _; cbn [mstep].
  - cbn; lia.
  - destruct (unit_of h g); [destruct (_ <=? _)|]; cbn; lia.
  - cbn; lia.
  - destruct (pvPortMalloc size (heap g)); cbn; lia.
  - destruct (ptr =? NULL); cbn; lia.
  - cbn; lia.
  - cbn; lia.
  - destruct (ptr =? NULL); cbn; lia.
  - cbn; lia.
  - cbn; lia.
  - destruct (unit_of h g); cbn; lia.
  - cbn; lia.
  - cbn; lia.
Qed.

Lemma finish_enough n :
  forall p g,
    (steps_left p <= n)%nat ->
    finish w pvPortMalloc vPortFree (S n) p g
    = finish w pvPortMalloc vPortFree n p g.
Proof.
  induction n as [|n IH]; intros p g Hle.
  - assert (Hd : is_done p = true) by (apply steps_left_done; lia).
    now rewrite !finish_done.
  - destruct (is_done p) eqn:Hd; [now rewrite !finish_done|].
    pose proof (mstep_decreases p g Hd) as Hlt.
    change (finish w pvPortMalloc vPortFree (S (S n)) p g)
      with (let (p', g') := mstep w pvPortMalloc vPortFree p g in
            finish w pvPortMalloc vPortFree (S n) p' g').
    change (finish w pvPortMalloc vPortFree (S n) p g)
      with (let (p', g') := mstep w pvPortMalloc vPortFree p g in
            finish w pvPortMalloc vPortFree n p' g').
    destruct (mstep w pvPortMalloc vPortFree p g) as [p' g'].
    cbn [fst] in Hlt. apply IH. lia.
Qed.

Lemma steps_left_bound p : (steps_left p <= 6)%nat.
Proof. destruct p; cbn; lia. Qed.

Lemma complete_step p g :
  complete w pvPortMalloc vPortFree
    (fst (mstep w pvPortMalloc vPortFree p g))
    (snd (mstep w pvPortMalloc vPortFree p g))
  = complete w pvPortMalloc vPortFree p g.
Proof.
  unfold complete. rewrite <- (finish_enough 6 p g (steps_left_bound p)).
  change (finish w pvPortMalloc vPortFree 7 p g)
    with (let (p', g') := mstep w pvPortMalloc vPortFree p g in
          finish w pvPortMalloc vPortFree 6 p' g').
  now destruct (mstep w pvPortMalloc vPortFree p g).
Qed.

Lemma complete_done p g :
  is_done p = true -> complete w pvPortMalloc vPortFree p g = (p, g).
Proof. apply finish_done. Qed.

Lemma inside_step p g :
  inside p = true -> gives_mutex p = false ->
  inside (fst (mstep w pvPortMalloc vPortFree p g)) = true.
Proof.
  destruct p; try discriminate; intros _ _; cbn [mstep].
  - destruct (unit_of h g); [destruct (_ <=? _)|]; reflexivity.
  - reflexivity.
  - destruct (pvPortMalloc size (heap g)); reflexivity.
  - destruct (ptr =? NULL); reflexivity.
  - reflexivity.
  - reflexivity.
  - destruct (unit_of h g); reflexivity.
  - reflexivity.
Qed.

Lemma give_step p g :
  gives_mutex p = true ->
  is_done (fst (mstep w pvPortMalloc vPortFree p g)) = true.
Proof. destruct p; try discriminate; reflexivity. Qed.

Lemma inside_not_done p : inside p = true -> is_done p = false.
Proof. now destruct p. Qed.

Lemma inside_not_wants p : inside p = true -> wants_mutex p = false.
Proof. now destruct p. Qed.

(** Run without interruption, the steps of a call are the call. *)
Lemma complete_start cl s :
  complete w pvPortMalloc vPortFree (start cl) s
  = (returned w pvPortMalloc cl s, exec w pvPortMalloc vPortFree cl s).
Proof.
  destruct cl as [size h | ptr size h]; unfold complete; cbn [start returned exec].
  - destruct (unit_of h s) as [v|] eqn:Hv.
    + rewrite (malloc_registered s size h v Hv).
      cbn [finish mstep]. rewrite unit_of_log, Hv, used_log.
      destruct (size_add w (used v s) size <=? quota_of v).
      * cbn [finish mstep].
        change (heap (log SemaphoreTake s)) with (heap s).
        destruct (pvPortMalloc size (heap s)) as [p hp].
        cbn [finish mstep fst snd].
        destruct (p =? NULL).
        { reflexivity. }
        { cbn [finish mstep]. now rewrite used_log, used_set_heap, used_log. }
      * cbn [finish mstep fst snd]. now rewrite used_log.
    + rewrite (malloc_unregistered s size h Hv).
      cbn [finish mstep]. rewrite unit_of_log, Hv. reflexivity.
  - destruct (Z.eqb_spec ptr NULL) as [->|Hp].
    + reflexivity.
    + cbn [finish mstep]. destruct (Z.eqb_spec ptr NULL) as [|_]; [contradiction|].
      cbn [finish mstep]. rewrite unit_of_log, unit_of_set_heap, unit_of_log.
      destruct (unit_of h s) as [v|] eqn:Hv.
      * rewrite (free_registered s ptr size h v Hp Hv).
        cbn [finish mstep fst snd].
        now rewrite used_log, used_set_heap, used_log.
      * rewrite (free_unregistered s ptr size h Hp Hv). reflexivity.
Qed.

(** *** Lists of tasks *)

Lemma length_upd {A} i (x : A) l : List.length (upd i x l) = List.length l.
Proof.
  revert i. induction l as [|y l IH]; intros [|i]; cbn; auto.
Qed.

Lemma nth_error_upd_eq {A} i (x y : A) l :
  nth_error l i = Some y -> nth_error (upd i x l) i = Some x.
Proof.
  revert i. induction l as [|z l IH]; intros [|i]; cbn; try discriminate; auto.
Qed.

Lemma nth_error_upd_neq {A} i j (x : A) l :
  i <> j -> nth_error (upd i x l) j = nth_error l j.
Proof.
  revert i j. induction l as [|z l IH]; intros [|i] [|j] Hne; cbn; auto.
  - congruence.
Qed.

Lemma nth_upd_neq {A} i j (x d : A) l :
  i <> j -> nth j (upd i x l) d = nth j l d.
Proof.
  revert i j. induction l as [|z l IH]; intros [|i] [|j] Hne; cbn; auto.
  - congruence.
Qed.

Lemma pick_upd {A} (d x : A) i l order :
  ~ In i order -> pick d (upd i x l) order = pick d l order.
Proof.
  intros Hni. unfold pick. apply map_ext_in. intros j Hj.
  apply nth_upd_neq. intros ->. contradiction.
Qed.

Lemma pick_snoc {A} (d : A) l order i :
  pick d l (order ++ [i]) = pick d l order ++ [nth i l d].
Proof. unfold pick. now rewrite map_app. Qed.

(** *** Calls one after the other *)

Lemma serial_snoc l c s :
  serial w pvPortMalloc vPortFree (l ++ [c]) s
  = (fst (serial w pvPortMalloc vPortFree l s)
       ++ [returned w pvPortMalloc c (snd (serial w pvPortMalloc vPortFree l s))],
     exec w pvPortMalloc vPortFree c (snd (serial w pvPortMalloc vPortFree l s))).
Proof.
  revert s. induction l as [|c' l IH]; intros s; cbn [serial app].
  - reflexivity.
  - rewrite IH.
    now destruct (serial w pvPortMalloc vPortFree l
                    (exec w pvPortMalloc vPortFree c' s)).
Qed.

Lemma returned_done c s : is_done (returned w pvPortMalloc c s) = true.
Proof. now destruct c. Qed.

Lemma serial_done l s :
  Forall (fun d => is_done d = true) (fst (serial w pvPortMalloc vPortFree l s)).
Proof.
  revert s. induction l as [|c l IH]; intros s; cbn [serial].
  - constructor.
  - specialize (IH (exec w pvPortMalloc vPortFree c s)).
    destruct (serial w pvPortMalloc vPortFree l
                (exec w pvPortMalloc vPortFree c s)).
    constructor; [apply returned_done | exact IH].
Qed.

Lemma waiting_not_done cl p : waiting cl p -> is_done p = false.
Proof.
  intros [-> | (ptr & size & h & _ & _ & ->)]; [now destruct cl | reflexivity].
Qed.

(** *** Every schedule is a sequence of whole calls *)

Lemma serialised_serial cs s0 c order :
  serialised w pvPortMalloc vPortFree cs s0 c order ->
  exists sprev,
    serial w pvPortMalloc vPortFree (pick no_call cs order) s0
    = (pick FDone (tasks c) order, sprev).
Proof.
  intros (_ & _ & _ & _ & Hlock). destruct (memMutex c).
  - destruct Hlock as (_ & cl & p & sprev & _ & _ & _ & Hser & _). eauto.
  - eauto.
Qed.

Lemma serialised_done cs s0 c order i p :
  serialised w pvPortMalloc vPortFree cs s0 c order ->
  In i order -> nth_error (tasks c) i = Some p -> is_done p = true.
Proof.
  intros Hinv Hi Hp. destruct (serialised_serial _ _ _ _ Hinv) as [sprev Hser].
  pose proof (serial_done (pick no_call cs order) s0) as Hall.
  rewrite Hser in Hall. cbn [fst] in Hall. rewrite Forall_forall in Hall.
  apply Hall. unfold pick. apply in_map_iff. exists i. split; [|assumption].
  now apply nth_error_nth.
Qed.

Lemma waiting_complete cl p g :
  waiting cl p ->
  complete w pvPortMalloc vPortFree p g
  = complete w pvPortMalloc vPortFree (start cl) g.
Proof.
  intros [-> | (ptr & size & h & -> & Hptr & ->)]; [reflexivity|].
  rewrite <- (complete_step (start (Release ptr size h)) g). cbn [start mstep].
  destruct (Z.eqb_spec ptr NULL); [contradiction|reflexivity].
Qed.

Lemma wants_step p g :
  wants_mutex p = true ->
  inside (fst (mstep w pvPortMalloc vPortFree p g)) = true.
Proof. destruct p; try discriminate; reflexivity. Qed.

Lemma waiting_cases cl p :
  waiting cl p ->
  wants_mutex p = true \/
  exists ptr size h, cl = Release ptr size h /\ p = FStart ptr size h.
Proof.
  intros [-> | (ptr & size & h & _ & _ & ->)]; [|now left].
  destruct cl as [size h | ptr size h]; [now left|right; eauto].
Qed.

Lemma rest_after_upd cs (c : config Heap) order order' i p p' m' :
  (forall j cl q,
      ~ In j order -> memMutex c <> Some j ->
      nth_error cs j = Some cl -> nth_error (tasks c) j = Some q ->
      waiting cl q) ->
  nth_error (tasks c) i = Some p ->
  (forall j, j <> i -> ~ In j order' -> m' <> Some j ->
             ~ In j order /\ memMutex c <> Some j) ->
  (forall cl, ~ In i order' -> m' <> Some i ->
              nth_error cs i = Some cl -> waiting cl p') ->
  forall j cl q,
    ~ In j order' -> m' <> Some j ->
    nth_error cs j = Some cl -> nth_error (upd i p' (tasks c)) j = Some q ->
    waiting cl q.
Proof.
  intros Hrest Hp Hothers Hself j cl q Hj Hm Hcl Hq.
  destruct (Nat.eq_dec j i) as [->|Hne].
  - rewrite (nth_error_upd_eq i p' p _ Hp) in Hq. injection Hq as <-.
    now apply Hself.
  - rewrite nth_error_upd_neq in Hq by congruence.
    destruct (Hothers j Hne Hj Hm) as [Hj' Hm'].
    exact (Hrest j cl q Hj' Hm' Hcl Hq).
Qed.

(** A waiting task obtains the free mutex. *)
Lemma take_serialised cs s0 c order i p cl p' g' :
  serialised w pvPortMalloc vPortFree cs s0 c order ->
  memMutex c = None ->
  nth_error (tasks c) i = Some p -> nth_error cs i = Some cl ->
  ~ In i order -> wants_mutex p = true ->
  mstep w pvPortMalloc vPortFree p (globals c) = (p', g') ->
  serialised w pvPortMalloc vPortFree cs s0
    (mkConfig g' (Some i) (upd i p' (tasks c))) order.
Proof.
  intros (Hlen & Hnd & Hrange & Hrest & Hlock) Hm Hp Hcl Hni Hwants Hstep.
  rewrite Hm in Hlock.
  assert (Hwait : waiting cl p).
  { apply (Hrest i cl p Hni); [rewrite Hm; discriminate | assumption..]. }
  unfold serialised. cbn [tasks memMutex globals].
  split; [now rewrite length_upd|]. split; [assumption|].
  split; [assumption|]. split.
  - apply (rest_after_upd cs c order order i p p' (Some i) Hrest Hp).
    + intros j Hne Hj _. split; [assumption|]. rewrite Hm. discriminate.
    + intros cl' _ Hself. now contradiction Hself.
  - split; [assumption|]. exists cl, p', (globals c).
    split; [assumption|]. split; [exact (nth_error_upd_eq i p' p _ Hp)|].
    split.
    { pose proof (wants_step p (globals c) Hwants) as Hin.
      now rewrite Hstep in Hin. }
    split; [now rewrite pick_upd|].
    rewrite <- (waiting_complete cl p (globals c) Hwait).
    rewrite <- (complete_step p (globals c)). now rewrite Hstep.
Qed.

(** The holder of the mutex makes a step other than the give. *)
Lemma inside_serialised cs s0 c order i p p' g' :
  serialised w pvPortMalloc vPortFree cs s0 c order ->
  memMutex c = Some i ->
  nth_error (tasks c) i = Some p ->
  gives_mutex p = false ->
  mstep w pvPortMalloc vPortFree p (globals c) = (p', g') ->
  serialised w pvPortMalloc vPortFree cs s0
    (mkConfig g' (Some i) (upd i p' (tasks c))) order.
Proof.
  intros (Hlen & Hnd & Hrange & Hrest & Hlock) Hm Hp Hgive Hstep.
  rewrite Hm in Hlock.
  destruct Hlock as (Hni & cl & q & sprev & Hcl & Hq & Hin & Hser & Hcomp).
  rewrite Hp in Hq. injection Hq as <-.
  unfold serialised. cbn [tasks memMutex globals].
  split; [now rewrite length_upd|]. split; [assumption|].
  split; [assumption|]. split.
  - apply (rest_after_upd cs c order order i p p' (Some i) Hrest Hp).
    + intros j Hne Hj _. split; [assumption|]. rewrite Hm. congruence.
    + intros cl' _ Hself. now contradiction Hself.
  - split; [assumption|]. exists cl, p', sprev.
    split; [assumption|]. split; [exact (nth_error_upd_eq i p' p _ Hp)|].
    split.
    { pose proof (inside_step p (globals c) Hin Hgive) as Hin'.
      now rewrite Hstep in Hin'. }
    split; [now rewrite pick_upd|].
    rewrite <- Hcomp, <- (complete_step p (globals c)). now rewrite Hstep.
Qed.

(** The holder gives the mutex back: its call has taken effect as a whole,
    after the calls of [order]. *)
Lemma give_serialised cs s0 c order i p p' g' :
  serialised w pvPortMalloc vPortFree cs s0 c order ->
  memMutex c = Some i ->
  nth_error (tasks c) i = Some p ->
  gives_mutex p = true ->
  mstep w pvPortMalloc vPortFree p (globals c) = (p', g') ->
  serialised w pvPortMalloc vPortFree cs s0
    (mkConfig g' None (upd i p' (tasks c))) (order ++ [i]).
Proof.
  intros (Hlen & Hnd & Hrange & Hrest & Hlock) Hm Hp Hgive Hstep.
  rewrite Hm in Hlock.
  destruct Hlock as (Hni & cl & q & sprev & Hcl & Hq & Hin & Hser & Hcomp).
  rewrite Hp in Hq. injection Hq as <-.
  assert (Hi : (i < List.length cs)%nat).
  { apply nth_error_Some. congruence. }
  unfold serialised. cbn [tasks memMutex globals].
  split; [now rewrite length_upd|]. split.
  { apply NoDup_app; [assumption | repeat constructor; intros [] |].
    intros a Ha [<-|[]]. contradiction. }
  split.
  { intros j Hj. apply in_app_or in Hj. destruct Hj as [Hj|[<-|[]]]; auto. }
  split.
  - apply (rest_after_upd cs c order (order ++ [i]) i p p' None Hrest Hp).
    + intros j Hne Hj _. split.
      * intros Hj'. apply Hj. apply in_or_app. now left.
      * rewrite Hm. congruence.
    + intros cl' Hself. contradiction Hself. apply in_or_app. right. now left.
  - rewrite !pick_snoc, serial_snoc, Hser. cbn [fst snd].
    rewrite (pick_upd FDone p' i (tasks c) order Hni).
    rewrite (nth_error_nth cs i no_call Hcl).
    rewrite (nth_error_nth (upd i p' (tasks c)) i FDone
               (nth_error_upd_eq i p' p _ Hp)).
    pose proof (complete_step p (globals c)) as Hcs.
    rewrite Hstep in Hcs. cbn [fst snd] in Hcs.
    pose proof (give_step p (globals c) Hgive) as Hdone.
    rewrite Hstep in Hdone. cbn [fst] in Hdone.
    rewrite (complete_done p' g' Hdone), Hcomp, complete_start in Hcs.
    now injection Hcs as -> ->.
Qed.

Lemma waiting_FStart cl ptr size h :
  waiting cl (FStart ptr size h) -> cl = Release ptr size h.
Proof.
  intros [H | (ptr' & size' & h' & _ & _ & H)]; [|discriminate].
  destruct cl; cbn in H; [discriminate|]. now injection H as -> -> ->.
Qed.

(** A release of NULL returns at once; it can be counted as done after the
    calls of [order], whoever holds the mutex. *)
Lemma null_release_serialised cs s0 c order i size h :
  serialised w pvPortMalloc vPortFree cs s0 c order ->
  nth_error (tasks c) i = Some (FStart NULL size h) ->
  ~ In i order -> memMutex c <> Some i ->
  serialised w pvPortMalloc vPortFree cs s0
    (mkConfig (globals c) (memMutex c) (upd i FDone (tasks c))) (order ++ [i]).
Proof.
  intros (Hlen & Hnd & Hrange & Hrest & Hlock) Hp Hni Hm.
  assert (Hi : (i < List.length cs)%nat).
  { rewrite <- Hlen. apply nth_error_Some. congruence. }
  destruct (nth_error cs i) as [cl|] eqn:Hcl;
    [|apply nth_error_None in Hcl; lia].
  pose proof (waiting_FStart _ _ _ _ (Hrest i cl _ Hni Hm Hcl Hp)) as ->.
  assert (Hsnoc : forall sprev,
             serial w pvPortMalloc vPortFree (pick no_call cs order) s0
             = (pick FDone (tasks c) order, sprev) ->
             serial w pvPortMalloc vPortFree (pick no_call cs (order ++ [i])) s0
             = (pick FDone (upd i FDone (tasks c)) (order ++ [i]), sprev)).
  { intros sprev Hser. rewrite !pick_snoc, serial_snoc, Hser. cbn [fst snd].
    rewrite (pick_upd FDone FDone i (tasks c) order Hni).
    rewrite (nth_error_nth cs i no_call Hcl).
    now rewrite (nth_error_nth (upd i FDone (tasks c)) i FDone
                   (nth_error_upd_eq i FDone _ _ Hp)). }
  unfold serialised. cbn [tasks memMutex globals].
  split; [now rewrite length_upd|]. split.
  { apply NoDup_app; [assumption | repeat constructor; intros [] |].
    intros a Ha [<-|[]]. contradiction. }
  split.
  { intros j Hj. apply in_app_or in Hj. destruct Hj as [Hj|[<-|[]]]; auto. }
  split.
  - apply (rest_after_upd cs c order (order ++ [i]) i _ FDone (memMutex c)
             Hrest Hp).
    + intros j Hne Hj Hmj. split; [|assumption].
      intros Hj'. apply Hj. apply in_or_app. now left.
    + intros cl' Hself. contradiction Hself. apply in_or_app. right. now left.
  - destruct (memMutex c) as [k|].
    + destruct Hlock as (Hk & clk & pk & sprev & Hclk & Hpk & Hin & Hser & Hcomp).
      assert (Hki : i <> k) by congruence.
      split.
      { intros Hk'. apply in_app_or in Hk'. destruct Hk' as [Hk'|[Hk'|[]]];
          [contradiction | congruence]. }
      exists clk, pk, sprev. split; [assumption|].
      split; [now rewrite nth_error_upd_neq|].
      split; [assumption|]. split; [now apply Hsnoc | assumption].
    + now apply Hsnoc.
Qed.

(** A release of a non-null pointer goes on to [xSemaphoreTake]. *)
Lemma release_start_serialised cs s0 c order i ptr size h :
  serialised w pvPortMalloc vPortFree cs s0 c order ->
  nth_error (tasks c) i = Some (FStart ptr size h) ->
  ~ In i order -> memMutex c <> Some i -> ptr <> NULL ->
  serialised w pvPortMalloc vPortFree cs s0
    (mkConfig (globals c) (memMutex c) (upd i (FTake ptr size h) (tasks c)))
    order.
Proof.
  intros (Hlen & Hnd & Hrange & Hrest & Hlock) Hp Hni Hm Hptr.
  unfold serialised. cbn [tasks memMutex globals].
  split; [now rewrite length_upd|]. split; [assumption|].
  split; [assumption|]. split.
  - apply (rest_after_upd cs c order order i _ (FTake ptr size h) (memMutex c)
             Hrest Hp).
    + intros j Hne Hj Hmj. now split.
    + intros cl _ _ Hcl.
      pose proof (waiting_FStart _ _ _ _ (Hrest i cl _ Hni Hm Hcl Hp)) as ->.
      right. now exists ptr, size, h.
  - rewrite (pick_upd FDone _ i (tasks c) order Hni).
    destruct (memMutex c) as [k|]; [|assumption].
    destruct Hlock as (Hk & clk & pk & sprev & Hclk & Hpk & Hin & Hser & Hcomp).
    split; [assumption|]. exists clk, pk, sprev. split; [assumption|].
    split; [|now repeat split].
    rewrite nth_error_upd_neq; [assumption | congruence].
Qed.

Lemma resume_serialised cs s0 c order i :
  serialised w pvPortMalloc vPortFree cs s0 c order ->
  exists order',
    serialised w pvPortMalloc vPortFree cs s0
      (resume w pvPortMalloc vPortFree i c) order'.
Proof.
  intros Hinv. unfold resume.
  destruct (nth_error (tasks c) i) as [p|] eqn:Hp; [|eauto].
  destruct (is_done p) eqn:Hd; [eauto|].
  assert (Hni : ~ In i order).
  { intros Hin. pose proof (serialised_done _ _ _ _ _ _ Hinv Hin Hp). congruence. }
  pose proof Hinv as (Hlen & Hnd & Hrange & Hrest & Hlock).
  assert (Hi : (i < List.length cs)%nat).
  { rewrite <- Hlen. apply nth_error_Some. congruence. }
  destruct (nth_error cs i) as [cl|] eqn:Hcl;
    [|apply nth_error_None in Hcl; lia].
  assert (Hcase : memMutex c = Some i \/ memMutex c <> Some i).
  { destruct (memMutex c) as [k|]; [|right; discriminate].
    destruct (Nat.eq_dec k i) as [->|]; [now left | right; congruence]. }
  destruct Hcase as [Hm | Hm].
  - (* the holder of the mutex *)
    rewrite Hm in Hlock.
    destruct Hlock as (_ & cl' & q & sprev & _ & Hq & Hin & _).
    rewrite Hp in Hq. injection Hq as <-.
    rewrite (inside_not_wants p Hin).
    destruct (mstep w pvPortMalloc vPortFree p (globals c)) as [p' g'] eqn:Hstep.
    destruct (gives_mutex p) eqn:Hgive.
    + exists (order ++ [i]). now apply (give_serialised cs s0 c order i p).
    + exists order. rewrite Hm. now apply (inside_serialised cs s0 c order i p).
  - (* a task that waits *)
    pose proof (Hrest i cl p Hni Hm Hcl Hp) as Hwait.
    destruct (waiting_cases cl p Hwait) as [Hw | (ptr & size & h & -> & ->)].
    + rewrite Hw. destruct (memMutex c) as [k|] eqn:Hk; [eauto|].
      destruct (mstep w pvPortMalloc vPortFree p (globals c)) as [p' g'] eqn:Hstep.
      exists order. now apply (take_serialised cs s0 c order i p cl).
    + cbn [wants_mutex gives_mutex mstep].
      destruct (Z.eqb_spec ptr NULL) as [->|Hptr].
      * exists (order ++ [i]). now apply null_release_serialised with size h.
      * exists order. now apply release_start_serialised.
Qed.

Lemma racing_serialised cs s0 :
  serialised w pvPortMalloc vPortFree cs s0 (racing cs s0) [].
Proof.
  unfold serialised, racing. cbn [tasks memMutex globals].
  split; [apply length_map|]. split; [constructor|].
  split; [intros i []|]. split; [|reflexivity].
  intros i cl p _ _ Hcl Hp. left.
  rewrite nth_error_map, Hcl in Hp. cbn in Hp. now injection Hp as <-.
Qed.

Lemma schedule_serialised cs s0 sched :
  forall c order,
    serialised w pvPortMalloc vPortFree cs s0 c order ->
    exists order',
      serialised w pvPortMalloc vPortFree cs s0
        (schedule w pvPortMalloc vPortFree sched c) order'.
Proof.
  induction sched as [|i sched IH]; intros c order Hinv; cbn.
  - eauto.
  - destruct (resume_serialised cs s0 c order i Hinv) as [order' Hinv'].
    exact (IH _ order' Hinv').
Qed.

(** Once every task has returned, [order] lists all of them. *)
Lemma serialised_all_done cs s0 c order :
  serialised w pvPortMalloc vPortFree cs s0 c order ->
  all_done c = true ->
  Permutation order (seq 0 (List.length cs)) /\
  serial w pvPortMalloc vPortFree (pick no_call cs order) s0
  = (pick FDone (tasks c) order, globals c).
Proof.
  intros (Hlen & Hnd & Hrange & Hrest & Hlock) Hall.
  unfold all_done in Hall. rewrite forallb_forall in Hall.
  assert (Hdone : forall i p, nth_error (tasks c) i = Some p -> is_done p = true).
  { intros i p Hp. apply Hall. eapply nth_error_In. eassumption. }
  destruct (memMutex c) as [k|] eqn:Hm.
  - destruct Hlock as (_ & cl & p & _ & _ & Hp & Hin & _).
    pose proof (Hdone k p Hp). pose proof (inside_not_done p Hin). congruence.
  - split; [|assumption].
    apply NoDup_Permutation; [assumption | apply seq_NoDup |].
    intros i. rewrite in_seq. split.
    + intros Hi. specialize (Hrange i Hi). lia.
    + intros [_ Hi]. cbn in Hi.
      destruct (in_dec Nat.eq_dec i order) as [|Hni]; [assumption|exfalso].
      destruct (nth_error cs i) as [cl|] eqn:Hcl;
        [|apply nth_error_None in Hcl; lia].
      destruct (nth_error (tasks c) i) as [p|] eqn:Hp;
        [|apply nth_error_None in Hp; lia].
      assert (Hmi : None <> Some i) by discriminate.
      pose proof (waiting_not_done cl p (Hrest i cl p Hni Hmi Hcl Hp)).
      pose proof (Hdone i p Hp). congruence.
Qed.

(** *** The bytes of whole calls *)

Lemma exec_unit_of c s h :
  unit_of h (exec w pvPortMalloc vPortFree c s) = unit_of h s.
Proof.
  destruct c as [size h' | ptr size h']; cbn [exec].
  - destruct (malloc_effect s size h') as (p & s' & E & Hh & _).
    rewrite E. apply Hh.
  - destruct (Z.eq_dec ptr NULL) as [->|Hp]; [reflexivity|].
    apply (free_effect s ptr size h' Hp).
Qed.

Lemma net_ext u s s' c d :
  (forall h, unit_of h s' = unit_of h s) -> net u s' c d = net u s c d.
Proof.
  intros E. unfold net, names. destruct c, d; try reflexivity; now rewrite E.
Qed.

Lemma net_sum_ext u s s' cs ds :
  (forall h, unit_of h s' = unit_of h s) ->
  net_sum u s' cs ds = net_sum u s cs ds.
Proof.
  intros E. unfold net_sum. f_equal. apply map_ext. intros [c d].
  now apply net_ext.
Qed.

Lemma exec_net u c s :
  used u (exec w pvPortMalloc vPortFree c s) mod size_max w
  = (used u s + net u s c (returned w pvPortMalloc c s)) mod size_max w.
Proof.
  destruct c as [size h | ptr size h]; cbn [exec returned net].
  - destruct (malloc_effect s size h) as (p & s' & E & _ & Hcase).
    rewrite E. cbn [fst snd].
    destruct Hcase as [[-> Hsame] | (Hp & v & Hv & _ & _ & Hupd)].
    + rewrite Hsame. cbn. now rewrite Z.add_0_r.
    + destruct (Z.eqb_spec p NULL) as [|_]; [contradiction|].
      unfold names. rewrite Hv, Hupd. cbn [negb andb].
      destruct (unit_eqb u v) eqn:Euv; [|now rewrite Z.add_0_r].
      apply unit_eqb_eq in Euv. subst v. unfold size_add. apply Zmod_mod.
  - destruct (Z.eqb_spec ptr NULL) as [->|Hp].
    + cbn. now rewrite Z.add_0_r.
    + destruct (free_effect s ptr size h Hp) as [_ Hupd]. cbv zeta in Hupd.
      rewrite Hupd. unfold names. cbn [negb andb].
      destruct (unit_of h s) as [v|]; [|now rewrite Z.add_0_r].
      destruct (unit_eqb u v) eqn:Euv; [|now rewrite Z.add_0_r].
      apply unit_eqb_eq in Euv. subst v. unfold size_sub.
      rewrite Zmod_mod. f_equal; lia.
Qed.

Lemma exec_size_t u c s :
  is_size_t w (used u s) ->
  is_size_t w (used u (exec w pvPortMalloc vPortFree c s)).
Proof.
  intros HU.
  assert (Hpos : 0 < size_max w) by (unfold is_size_t in HU; lia).
  destruct c as [size h | ptr size h]; cbn [exec].
  - destruct (malloc_effect s size h) as (p & s' & E & _ & Hcase).
    rewrite E. cbn [snd].
    destruct Hcase as [[_ Hsame] | (_ & v & _ & _ & _ & Hupd)].
    + now rewrite Hsame.
    + rewrite Hupd. destruct (unit_eqb u v); [|assumption].
      apply Z.mod_pos_bound. assumption.
  - destruct (Z.eq_dec ptr NULL) as [->|Hp]; [assumption|].
    destruct (free_effect s ptr size h Hp) as [_ Hupd]. cbv zeta in Hupd.
    rewrite Hupd. destruct (unit_of h s) as [v|]; [|assumption].
    destruct (unit_eqb u v); [|assumption].
    apply Z.mod_pos_bound. assumption.
Qed.

Lemma net_sum_cons u s c cs d ds :
  net_sum u s (c :: cs) (d :: ds) = net u s c d + net_sum u s cs ds.
Proof. reflexivity. Qed.

(** After calls made one after the other, the counter is what it was plus
    the bytes of the calls, modulo [2^w]. *)
Lemma serial_net u l :
  forall s,
    is_size_t w (used u s) ->
    used u (snd (serial w pvPortMalloc vPortFree l s))
    = (used u s + net_sum u s l (fst (serial w pvPortMalloc vPortFree l s)))
        mod size_max w.
Proof.
  induction l as [|c l IH]; intros s HU; cbn [serial].
  - cbn. rewrite Z.add_0_r. symmetry. apply Z.mod_small. exact HU.
  - specialize (IH (exec w pvPortMalloc vPortFree c s) (exec_size_t u c s HU)).
    destruct (serial w pvPortMalloc vPortFree l
                (exec w pvPortMalloc vPortFree c s)) as [ds s'].
    cbn [fst snd] in *. rewrite IH, net_sum_cons.
    rewrite (net_sum_ext u s _ l ds (exec_unit_of c s)).
    rewrite <- Zplus_mod_idemp_l, exec_net, Zplus_mod_idemp_l.
    f_equal; lia.
Qed.

(** On a device whose heap fits the address space an allocation within the
    quota adds its bytes exactly, and stays within the quota. *)
Lemma serial_allocs u heapSize l :
  heap_fits w pvPortMalloc heapSize ->
  forall s,
    only_allocs l -> sizes_ok w l ->
    0 <= used u s <= quota_of u ->
    used u (snd (serial w pvPortMalloc vPortFree l s))
    = used u s + net_sum u s l (fst (serial w pvPortMalloc vPortFree l s)) /\
    0 <= used u (snd (serial w pvPortMalloc vPortFree l s)) <= quota_of u.
Proof.
  intros (Hcap0 & Hcap & Hfit).
  induction l as [|c l IH]; intros s Honly Hsz HU; cbn [serial].
  - cbn. split; lia.
  - inversion Honly as [|? ? Hc Honly']; subst.
    inversion Hsz as [|? ? Hcsz Hsz']; subst.
    destruct c as [size h | ptr size h]; [|contradiction].
    assert (Hstep : used u (exec w pvPortMalloc vPortFree (Alloc size h) s)
                    = used u s
                      + net u s (Alloc size h)
                          (returned w pvPortMalloc (Alloc size h) s) /\
                    0 <= used u (exec w pvPortMalloc vPortFree (Alloc size h) s)
                      <= quota_of u).
    { cbn [exec returned net].
      destruct (malloc_effect s size h) as (p & s' & E & _ & Hcase).
      rewrite E. cbn [fst snd].
      destruct Hcase as [[-> Hsame] | (Hp & v & Hv & Hm & Hq & Hupd)].
      - rewrite Hsame. cbn. lia.
      - destruct (Z.eqb_spec p NULL) as [|_]; [contradiction|].
        unfold names. rewrite Hv, Hupd. cbn [negb andb].
        destruct (unit_eqb u v) eqn:Euv; [|lia].
        apply unit_eqb_eq in Euv. subst v.
        assert (Hsmall : size <= heapSize).
        { apply (Hfit size (heap s)). now rewrite Hm. }
        destruct Hcsz as [Hs0 Hs1]. rewrite quota_of_value in *.
        unfold size_add in *. rewrite Z.mod_small in * by lia. lia. }
    destruct Hstep as [Hexact Hbound].
    specialize (IH (exec w pvPortMalloc vPortFree (Alloc size h) s)
                  Honly' Hsz' Hbound).
    destruct (serial w pvPortMalloc vPortFree l
                (exec w pvPortMalloc vPortFree (Alloc size h) s)) as [ds s'].
    cbn [fst snd] in *. destruct IH as [IHexact IHbound].
    split; [|assumption].
    rewrite IHexact, Hexact, net_sum_cons.
    rewrite (net_sum_ext u s _ l ds (exec_unit_of (Alloc size h) s)). lia.
Qed.

(** *** Sums over the tasks, in any order *)

Lemma Forall_pick {A} (P : A -> Prop) d l order :
  Forall P l -> (forall i, In i order -> (i < List.length l)%nat) ->
  Forall P (pick d l order).
Proof.
  intros Hall Hrange. unfold pick. rewrite Forall_forall in *.
  intros x Hx. apply in_map_iff in Hx. destruct Hx as (i & <- & Hi).
  apply Hall. apply nth_In. now apply Hrange.
Qed.

Lemma net_sum_pick u s d1 d2 cs ts order :
  net_sum u s (pick d1 cs order) (pick d2 ts order)
  = total (map (fun i => net u s (nth i cs d1) (nth i ts d2)) order).
Proof.
  induction order as [|i order IH]; [reflexivity|].
  cbn [pick map]. fold (pick d1 cs order). fold (pick d2 ts order).
  rewrite net_sum_cons, IH. reflexivity.
Qed.

Lemma total_perm (f : nat -> Z) l l' :
  Permutation l l' -> total (map f l) = total (map f l').
Proof.
  unfold total.
  induction 1 as [| x l l' _ IH | x y l | l l' l'' _ IH1 _ IH2]; cbn.
  - reflexivity.
  - now rewrite IH.
  - lia.
  - congruence.
Qed.

Lemma net_sum_seq u s d1 d2 cs :
  forall ts,
    List.length ts = List.length cs ->
    total (map (fun i => net u s (nth i cs d1) (nth i ts d2))
               (seq 0 (List.length cs)))
    = net_sum u s cs ts.
Proof.
  induction cs as [|c cs IH]; intros [|t ts] Hlen; try discriminate.
  - reflexivity.
  - cbn [List.length seq map total fold_right nth].
    rewrite net_sum_cons, <- (IH ts) by (cbn in Hlen; lia).
    rewrite <- seq_shift, map_map. reflexivity.
Qed.

(** C4. Tasks race through the two functions, preempted between any two
    accesses to the globals, [memMutex] being the only thing that makes a
    task wait.  Whatever the schedule, once all calls have returned there is
    an order of the calls such that running them one after the other, each as
    a whole, gives the same globals and the same return value for every
    call.  So no update is lost: each counter is what it was plus the bytes
    of the allocations that succeeded minus the bytes released, modulo
    [2^w] (and exactly that sum when it is a [size_t]); and, on a device
    whose heap fits the address space, racing allocations never succeed
    together beyond the quota: the counter ends at exactly its value at the
    start plus the bytes granted, and that is within the quota. *)
Theorem racing_calls_are_atomic cs s0 sched :
  let c := schedule w pvPortMalloc vPortFree sched (racing cs s0) in
  all_done c = true ->
  exists order,
    Permutation order (seq 0 (List.length cs)) /\
    serial w pvPortMalloc vPortFree (pick no_call cs order) s0
    = (pick FDone (tasks c) order, globals c) /\
    (forall u,
        is_size_t w (used u s0) ->
        used u (globals c)
        = (used u s0 + net_sum u s0 cs (tasks c)) mod 2 ^ w /\
        (is_size_t w (used u s0 + net_sum u s0 cs (tasks c)) ->
         used u (globals c) = used u s0 + net_sum u s0 cs (tasks c))) /\
    (forall u heapSize,
        heap_fits w pvPortMalloc heapSize ->
        sizes_ok w cs -> only_allocs cs ->
        0 <= used u s0 <= quota_of u ->
        used u (globals c) = used u s0 + net_sum u s0 cs (tasks c) /\
        used u s0 + net_sum u s0 cs (tasks c) <= quota_of u).
Proof.
  intros c Hall.
  destruct (schedule_serialised cs s0 sched _ [] (racing_serialised cs s0))
    as [order Hinv].
  fold c in Hinv.
  destruct (serialised_all_done cs s0 c order Hinv Hall) as [Hperm Hser].
  destruct Hinv as (Hlen & _ & Hrange & _ & _).
  assert (Hsum : forall u,
             net_sum u s0 (pick no_call cs order) (pick FDone (tasks c) order)
             = net_sum u s0 cs (tasks c)).
  { intros u. rewrite net_sum_pick, (total_perm _ _ _ Hperm).
    now apply net_sum_seq. }
  exists order. split; [assumption|]. split; [assumption|]. split.
  - intros u HU.
    pose proof (serial_net u (pick no_call cs order) s0 HU) as Hnet.
    rewrite Hser in Hnet. cbn [fst snd] in Hnet. rewrite Hsum in Hnet.
    split; [exact Hnet|]. intros Hsmall. rewrite Hnet.
    apply Z.mod_small. exact Hsmall.
  - intros u heapSize Hfit Hsz Honly HU.
    destruct (serial_allocs u heapSize (pick no_call cs order) Hfit s0)
      as [Hexact Hbound]; try assumption.
    + now apply Forall_pick.
    + now apply Forall_pick.
    + rewrite Hser in Hexact, Hbound. cbn [fst snd] in Hexact, Hbound.
      rewrite Hsum in Hexact. lia.
Qed.

(** *** Some schedule lets every call return *)

Lemma upd_upd {A} i (x y : A) l : upd i x (upd i y l) = upd i x l.
Proof.
  revert i. induction l as [|z l IH]; intros [|i]; cbn; try reflexivity.
  now rewrite IH.
Qed.

Lemma upd_same {A} i (x : A) l : nth_error l i = Some x -> upd i x l = l.
Proof.
  revert i. induction l as [|z l IH]; intros [|i]; cbn; try discriminate.
  - now intros [= ->].
  - intros H. now rewrite IH.
Qed.

Lemma resume_ready c i p :
  nth_error (tasks c) i = Some p -> ready c i p -> is_done p = false ->
  exists p',
    tasks (resume w pvPortMalloc vPortFree i c) = upd i p' (tasks c) /\
    ready (resume w pvPortMalloc vPortFree i c) i p' /\
    (steps_left p' < steps_left p)%nat.
Proof.
  intros Hp Hready Hd. unfold resume. rewrite Hp, Hd.
  pose proof (mstep_decreases p (globals c) Hd) as Hlt.
  destruct Hready as [[Hin Hm] | [Hout Hm]].
  - rewrite (inside_not_wants p Hin).
    pose proof (inside_step p (globals c) Hin) as Hin'.
    pose proof (give_step p (globals c)) as Hgive.
    destruct (mstep w pvPortMalloc vPortFree p (globals c)) as [p' g'].
    cbn [fst] in *. exists p'. cbn [tasks memMutex].
    split; [reflexivity|]. split; [|assumption].
    destruct (gives_mutex p).
    + right. split; [|reflexivity].
      specialize (Hgive eq_refl). now destruct p'.
    + left. split; [now apply Hin' | assumption].
  - rewrite Hm. destruct (wants_mutex p) eqn:Hw.
    + pose proof (wants_step p (globals c) Hw) as Hin'.
      destruct (mstep w pvPortMalloc vPortFree p (globals c)) as [p' g'].
      cbn [fst] in *. exists p'. cbn [tasks memMutex].
      split; [reflexivity|]. split; [|assumption]. left. now split.
    + destruct p; try discriminate. cbn [mstep gives_mutex] in *.
      destruct (ptr =? NULL); eexists; cbn [tasks memMutex fst] in *;
        (split; [reflexivity|]); (split; [|assumption]); right; now split.
Qed.

Lemma run_alone i n :
  forall c p,
    nth_error (tasks c) i = Some p -> ready c i p ->
    (steps_left p <= n)%nat ->
    let c' := schedule w pvPortMalloc vPortFree (repeat i n) c in
    memMutex c' = None /\
    exists d, is_done d = true /\ tasks c' = upd i d (tasks c).
Proof.
  induction n as [|n IH]; intros c p Hp Hready Hle.
  - assert (Hd : is_done p = true) by (apply steps_left_done; lia).
    cbn. split.
    + destruct Hready as [[Hin _] | [_ Hm]]; [|assumption].
      pose proof (inside_not_done p Hin). congruence.
    + exists p. split; [assumption|]. symmetry. now apply upd_same.
  - destruct (is_done p) eqn:Hd.
    + assert (Hfix : forall m c0, tasks c0 = tasks c -> memMutex c0 = memMutex c ->
                 schedule w pvPortMalloc vPortFree (repeat i m) c0 = c0).
      { induction m as [|m IHm]; intros c0 Ht Hm0; cbn; [reflexivity|].
        unfold resume at 2. rewrite Ht, Hp, Hd. now apply IHm. }
      cbv zeta. rewrite (Hfix (S n) c eq_refl eq_refl). split.
      * destruct Hready as [[Hin _] | [_ Hm]]; [|assumption].
        pose proof (inside_not_done p Hin). congruence.
      * exists p. split; [assumption|]. symmetry. now apply upd_same.
    + destruct (resume_ready c i p Hp Hready Hd) as (p' & Ht & Hready' & Hlt).
      cbn [repeat schedule fold_left].
      fold (schedule w pvPortMalloc vPortFree (repeat i n)
              (resume w pvPortMalloc vPortFree i c)).
      assert (Hp' : nth_error (tasks (resume w pvPortMalloc vPortFree i c)) i
                    = Some p').
      { rewrite Ht. exact (nth_error_upd_eq i p' p _ Hp). }
      destruct (IH _ p' Hp' Hready' ltac:(lia)) as [Hm (d & Hdd & Htasks)].
      split; [assumption|]. exists d. split; [assumption|].
      now rewrite Htasks, Ht, upd_upd.
Qed.

Lemma done_not_inside p : is_done p = true -> inside p = false.
Proof. now destruct p. Qed.

Lemma Forall_upd {A} (P : A -> Prop) i x l :
  Forall P l -> P x -> Forall P (upd i x l).
Proof.
  intros Hall Hx. revert i.
  induction Hall as [|y l Hy Hl IH]; intros [|i]; cbn; constructor; auto.
Qed.

Lemma schedule_app l1 l2 c :
  schedule w pvPortMalloc vPortFree (l1 ++ l2) c
  = schedule w pvPortMalloc vPortFree l2
      (schedule w pvPortMalloc vPortFree l1 c).
Proof. apply fold_left_app. Qed.

Lemma schedule_absent i n c :
  nth_error (tasks c) i = None ->
  schedule w pvPortMalloc vPortFree (repeat i n) c = c.
Proof.
  intros Hp. induction n as [|n IH]; cbn; [reflexivity|].
  unfold resume at 2. now rewrite Hp.
Qed.

Lemma length_resume i c :
  List.length (tasks (resume w pvPortMalloc vPortFree i c))
  = List.length (tasks c).
Proof.
  unfold resume. destruct (nth_error (tasks c) i) as [p|]; [|reflexivity].
  destruct (is_done p); [reflexivity|].
  destruct (mstep w pvPortMalloc vPortFree p (globals c)) as [p' g'].
  destruct (wants_mutex p); [destruct (memMutex c)|]; cbn [tasks];
    try reflexivity; apply length_upd.
Qed.

Lemma length_schedule sched :
  forall c,
    List.length (tasks (schedule w pvPortMalloc vPortFree sched c))
    = List.length (tasks c).
Proof.
  induction sched as [|i sched IH]; intros c; cbn; [reflexivity|].
  fold (schedule w pvPortMalloc vPortFree sched
          (resume w pvPortMalloc vPortFree i c)).
  now rewrite IH, length_resume.
Qed.

Lemma one_by_one_done idxs :
  forall c,
    memMutex c = None ->
    Forall (fun p => inside p = false) (tasks c) ->
    let c' := schedule w pvPortMalloc vPortFree (one_by_one idxs) c in
    memMutex c' = None /\
    Forall (fun p => inside p = false) (tasks c') /\
    forall j p,
      nth_error (tasks c) j = Some p ->
      In j idxs \/ is_done p = true ->
      exists p', nth_error (tasks c') j = Some p' /\ is_done p' = true.
Proof.
  induction idxs as [|i idxs IH]; intros c Hm Hout.
  - cbn. split; [assumption|]. split; [assumption|].
    intros j p Hp [[] | Hd]. eauto.
  - unfold one_by_one. cbn [map List.concat]. fold (one_by_one idxs).
    cbv zeta. rewrite schedule_app.
    set (c1 := schedule w pvPortMalloc vPortFree (repeat i 6) c).
    assert (H1 : memMutex c1 = None /\
                 Forall (fun p => inside p = false) (tasks c1) /\
                 forall j p, nth_error (tasks c) j = Some p ->
                   j = i \/ is_done p = true ->
                   exists p1, nth_error (tasks c1) j = Some p1 /\
                              is_done p1 = true).
    { destruct (nth_error (tasks c) i) as [p|] eqn:Hp.
      - assert (Hready : ready c i p).
        { right. split; [|assumption]. rewrite Forall_forall in Hout.
          apply Hout. eapply nth_error_In. eassumption. }
        destruct (run_alone i 6 c p Hp Hready (steps_left_bound p))
          as [Hm1 (d & Hd & Ht)].
        fold c1 in Hm1, Ht. split; [assumption|]. split.
        + rewrite Ht. apply Forall_upd; [assumption | now apply done_not_inside].
        + intros j q Hq Hj. rewrite Ht.
          destruct (Nat.eq_dec j i) as [->|Hne].
          * exists d. split; [|assumption]. exact (nth_error_upd_eq i d p _ Hp).
          * rewrite nth_error_upd_neq by congruence.
            destruct Hj as [|Hdq]; [contradiction|]. eauto.
      - unfold c1. rewrite (schedule_absent i 6 c Hp).
        split; [assumption|]. split; [assumption|].
        intros j q Hq [-> | Hdq]; [congruence | eauto]. }
    destruct H1 as (Hm1 & Hout1 & Hdone1).
    destruct (IH c1 Hm1 Hout1) as (Hm' & Hout' & Hdone').
    split; [assumption|]. split; [assumption|].
    intros j p Hp Hj.
    assert (Hlen : List.length (tasks c1) = List.length (tasks c))
      by apply length_schedule.
    destruct (nth_error (tasks c1) j) as [p1|] eqn:Hp1.
    + apply (Hdone' j p1 Hp1).
      destruct Hj as [[<- | Hj] | Hj]; [|now left|].
      * right. destruct (Hdone1 i p Hp (or_introl eq_refl)) as (q & Hq & Hdq).
        congruence.
      * right. destruct (Hdone1 j p Hp (or_intror Hj)) as (q & Hq & Hdq).
        congruence.
    + apply nth_error_None in Hp1.
      assert (nth_error (tasks c) j <> None) by congruence.
      apply nth_error_Some in H. lia.
Qed.

(** For any calls there is a schedule after which all of them have
    returned. *)
Lemma some_schedule_completes cs s0 :
  all_done (schedule w pvPortMalloc vPortFree
              (one_by_one (seq 0 (List.length cs))) (racing cs s0)) = true.
Proof.
  assert (Hout : Forall (fun p => inside p = false) (tasks (racing cs s0))).
  { cbn. rewrite Forall_forall. intros p Hp. apply in_map_iff in Hp.
    destruct Hp as (c & <- & _). now destruct c. }
  destruct (one_by_one_done (seq 0 (List.length cs)) (racing cs s0)
              eq_refl Hout) as (_ & _ & Hdone).
  cbv zeta in Hdone. unfold all_done. apply forallb_forall. intros p' Hp'.
  apply In_nth_error in Hp'. destruct Hp' as [j Hj].
  assert (Hlt : (j < List.length cs)%nat).
  { assert (Hsome : nth_error
                      (tasks (schedule w pvPortMalloc vPortFree
                                (one_by_one (seq 0 (List.length cs)))
                                (racing cs s0))) j <> None) by congruence.
    apply nth_error_Some in Hsome. rewrite length_schedule in Hsome.
    cbn in Hsome. now rewrite length_map in Hsome. }
  destruct (nth_error (tasks (racing cs s0)) j) as [p|] eqn:Hp.
  - destruct (Hdone j p Hp) as (q & Hq & Hdq).
    + left. apply in_seq. lia.
    + congruence.
  - apply nth_error_None in Hp. cbn in Hp. rewrite length_map in Hp. lia.
Qed.

(** ** Further properties of the two functions *)

(** X1. Whatever the handle, the size and the pointer, each of the two
    functions takes [memMutex] at most once and gives it back before it
    returns, on every path; between the take and the give it makes at most
    one call to the heap or to the serial port.  The allocation always takes
    the mutex; the release takes it unless the pointer is NULL. *)
Theorem lock_discipline s size ptr h :
  let s1 := snd (pvPortMallocWithQuota w pvPortMalloc size h s) in
  let s2 := snd (vPortFreeWithTracking w vPortFree ptr size h s) in
  bracketed (emitted s s1) /\ emitted s s1 <> [] /\
  bracketed (emitted s s2) /\ (emitted s s2 = [] <-> ptr = NULL).
Proof.
  cbv zeta.
  assert (Hm : exists mid,
             emitted s (snd (pvPortMallocWithQuota w pvPortMalloc size h s))
             = SemaphoreTake :: mid ++ [SemaphoreGive] /\
             (List.length mid <= 1)%nat /\
             forallb (fun e => negb (is_lock_call e)) mid = true).
  { destruct (unit_of h s) as [u|] eqn:Hu.
    - rewrite (malloc_registered s size h u Hu).
      destruct (_ <=? _).
      + destruct (pvPortMalloc size (heap s)) as [p hp]. cbn [snd].
        exists [PortMalloc size p]. split; [|split; [cbn; lia | reflexivity]].
        apply emitted_app. destruct (p =? NULL), u; cbn;
          now rewrite <- !app_assoc.
      + cbn [snd].
        exists [SerialPrintf (fmt_of u) [size; used u s; quota_of u]].
        split; [|split; [cbn; lia | reflexivity]].
        apply emitted_app. cbn. now rewrite <- !app_assoc.
    - rewrite (malloc_unregistered s size h Hu). cbn [snd].
      exists []. split; [|split; [cbn; lia | reflexivity]].
      apply emitted_app. cbn. now rewrite <- !app_assoc. }
  assert (Hf : ptr <> NULL ->
               emitted s (snd (vPortFreeWithTracking w vPortFree ptr size h s))
               = [SemaphoreTake; PortFree ptr; SemaphoreGive]).
  { intros Hp. destruct (unit_of h s) as [u|] eqn:Hu.
    - rewrite (free_registered s ptr size h u Hp Hu). cbn [snd].
      apply emitted_app. destruct u; cbn; now rewrite <- !app_assoc.
    - rewrite (free_unregistered s ptr size h Hp Hu). cbn [snd].
      apply emitted_app. cbn. now rewrite <- !app_assoc. }
  destruct Hm as (mid & Em & Hlen & Hmid).
  split; [right; now exists mid|]. split; [rewrite Em; discriminate|].
  destruct (Z.eq_dec ptr NULL) as [->|Hp].
  - assert (E0 : emitted s (snd (vPortFreeWithTracking w vPortFree NULL size h s))
                 = []) by (cbn; unfold emitted; apply skipn_all).
    rewrite E0. split; [now left | tauto].
  - rewrite (Hf Hp). split.
    + right. exists [PortFree ptr]. split; [reflexivity|].
      split; [cbn; lia | reflexivity].
    + split; [discriminate | contradiction].
Qed.

(** X2. A request of a registered unit that fails the quota test is turned
    down without the heap being asked: the function returns NULL, prints one
    line with the size asked, the usage and the quota of that unit, and
    leaves both counters and the heap as they were. *)
Theorem rejection_is_reported s size h u :
  unit_of h s = Some u ->
  quota_of u < size_add w (used u s) size ->
  let r := pvPortMallocWithQuota w pvPortMalloc size h s in
  fst r = NULL /\
  emitted s (snd r)
  = [SemaphoreTake;
     SerialPrintf (fmt_of u) [size; used u s; quota_of u];
     SemaphoreGive] /\
  heap (snd r) = heap s /\
  sensorMemUsage (snd r) = sensorMemUsage s /\
  commMemUsage (snd r) = commMemUsage s.
Proof.
  intros Hu Hq. cbv zeta. rewrite (malloc_registered s size h u Hu).
  apply Z.leb_gt in Hq. rewrite Hq. cbn [fst snd].
  split; [reflexivity|]. split; [|now repeat split].
  apply emitted_app. cbn. now rewrite <- !app_assoc.
Qed.

(** X3. The quota test is made on the wrapped sum.  When [used + size]
    reaches [2^w] and the wrapped sum [used + size - 2^w] is within the
    quota, the request is not turned down: nothing is printed, the heap is
    asked for [size] bytes, its answer is returned, and if it is not NULL
    the counter becomes the wrapped sum. *)
Theorem quota_test_wraps s size h u :
  unit_of h s = Some u ->
  is_size_t w (used u s) -> is_size_t w size ->
  2 ^ w <= used u s + size ->
  used u s + size - 2 ^ w <= quota_of u ->
  let r := pvPortMallocWithQuota w pvPortMalloc size h s in
  let p := fst (pvPortMalloc size (heap s)) in
  fst r = p /\
  emitted s (snd r) = [SemaphoreTake; PortMalloc size p; SemaphoreGive] /\
  used u (snd r) = (if p =? NULL then used u s else used u s + size - 2 ^ w).
Proof.
  intros Hu HU HS Hwrap Hq. cbv zeta.
  rewrite (malloc_registered s size h u Hu).
  destruct (size_add_cases _ _ HU HS) as [[Hlt _] | [_ Hadd]];
    [unfold size_max in Hlt; lia|].
  unfold size_max in Hadd. rewrite Hadd.
  apply Z.leb_le in Hq. rewrite Hq.
  destruct (pvPortMalloc size (heap s)) as [p hp]. cbn [fst snd].
  split; [reflexivity|]. split.
  - apply emitted_app. destruct (p =? NULL), u; cbn; now rewrite <- !app_assoc.
  - rewrite used_log. destruct (p =? NULL).
    + now rewrite used_log, used_set_heap, used_log.
    + now rewrite used_set_used.
Qed.

(** X4. An allocation followed by the release of what it returned, with the
    same size and handle, leaves both counters as they were: whatever the
    handle, whether the request was granted, turned down or failed in the
    heap, and also when the sum wrapped. *)
Theorem allocate_release_round_trip s size h :
  is_size_t w (sensorMemUsage s) -> is_size_t w (commMemUsage s) ->
  let r := pvPortMallocWithQuota w pvPortMalloc size h s in
  let s' := snd (vPortFreeWithTracking w vPortFree (fst r) size h (snd r)) in
  sensorMemUsage s' = sensorMemUsage s /\ commMemUsage s' = commMemUsage s.
Proof.
  intros HS HC. cbv zeta.
  assert (Hall : forall u, is_size_t w (used u s)) by (intros []; assumption).
  enough (Hgoal : forall u,
             used u (snd (vPortFreeWithTracking w vPortFree
                            (fst (pvPortMallocWithQuota w pvPortMalloc size h s))
                            size h
                            (snd (pvPortMallocWithQuota w pvPortMalloc size h s))))
             = used u s).
  { split; [exact (Hgoal Sensor) | exact (Hgoal Comm)]. }
  intros u.
  destruct (malloc_effect s size h) as (p & s1 & E & Hh & Hcase).
  rewrite E. cbn [fst snd].
  destruct Hcase as [[-> Hsame] | (Hp & v & Hv & _ & _ & Hupd)].
  - cbn. apply Hsame.
  - destruct (free_effect s1 p size h Hp) as [_ Hfree]. cbv zeta in Hfree.
    rewrite Hfree, Hh, Hv, !Hupd, unit_eqb_refl.
    destruct (unit_eqb u v) eqn:Euv; [|reflexivity].
    apply unit_eqb_eq in Euv. subst v.
    unfold size_sub, size_add. rewrite Zminus_mod_idemp_l.
    replace (used u s + size - size) with (used u s) by lia.
    apply Z.mod_small. apply Hall.
Qed.

(** ** Further properties of racing tasks *)

Lemma waiting_not_inside cl p : waiting cl p -> inside p = false.
Proof.
  intros [-> | (ptr & size & h & _ & _ & ->)]; [now destruct cl | reflexivity].
Qed.

Lemma reachable_serialised cs s0 sched :
  exists order,
    serialised w pvPortMalloc vPortFree cs s0
      (schedule w pvPortMalloc vPortFree sched (racing cs s0)) order.
Proof. exact (schedule_serialised cs s0 sched _ [] (racing_serialised cs s0)). Qed.

Lemma serialised_inside cs s0 c order i p :
  serialised w pvPortMalloc vPortFree cs s0 c order ->
  nth_error (tasks c) i = Some p -> inside p = true -> memMutex c = Some i.
Proof.
  intros Hinv Hp Hin.
  destruct (in_dec Nat.eq_dec i order) as [Hi|Hni].
  - pose proof (serialised_done _ _ _ _ _ _ Hinv Hi Hp).
    pose proof (inside_not_done p Hin). congruence.
  - destruct Hinv as (Hlen & _ & _ & Hrest & _).
    assert (Hlt : (i < List.length cs)%nat).
    { rewrite <- Hlen. apply nth_error_Some. congruence. }
    destruct (nth_error cs i) as [cl|] eqn:Hcl;
      [|apply nth_error_None in Hcl; lia].
    destruct (memMutex c) as [k|] eqn:Hm.
    + destruct (Nat.eq_dec k i) as [->|Hne]; [reflexivity|exfalso].
      assert (Hmi : Some k <> Some i) by congruence.
      pose proof (waiting_not_inside cl p (Hrest i cl p Hni Hmi Hcl Hp)).
      congruence.
    + exfalso. assert (Hmi : None <> Some i) by discriminate.
      pose proof (waiting_not_inside cl p (Hrest i cl p Hni Hmi Hcl Hp)).
      congruence.
Qed.

(** X5. Mutual exclusion.  Whatever the calls and the schedule, a task that
    stands between its [xSemaphoreTake] and its [xSemaphoreGive] is the
    holder of [memMutex], so at most one task is there at any time. *)
Theorem mutual_exclusion cs s0 sched i p :
  let c := schedule w pvPortMalloc vPortFree sched (racing cs s0) in
  nth_error (tasks c) i = Some p -> inside p = true ->
  memMutex c = Some i /\
  forall j q, nth_error (tasks c) j = Some q -> inside q = true -> j = i.
Proof.
  intros c Hp Hin.
  destruct (reachable_serialised cs s0 sched) as [order Hinv]. fold c in Hinv.
  pose proof (serialised_inside cs s0 c order i p Hinv Hp Hin) as Hm.
  split; [assumption|]. intros j q Hq Hinq.
  pose proof (serialised_inside cs s0 c order j q Hinv Hq Hinq). congruence.
Qed.

Lemma Forall_upd_except {A} (P : A -> Prop) i x l :
  (forall j y, j <> i -> nth_error l j = Some y -> P y) -> P x ->
  Forall P (upd i x l).
Proof.
  revert i. induction l as [|y l IH]; intros i Hl Hx; [destruct i; constructor|].
  destruct i as [|i]; cbn.
  - constructor; [assumption|]. apply Forall_forall. intros z Hz.
    apply In_nth_error in Hz. destruct Hz as [j Hj].
    apply (Hl (S j) z); [discriminate | exact Hj].
  - constructor.
    + apply (Hl 0%nat y); [discriminate | reflexivity].
    + apply IH; [|assumption]. intros j z Hne Hj.
      apply (Hl (S j) z); [congruence | exact Hj].
Qed.

Lemma one_by_one_all c :
  memMutex c = None ->
  Forall (fun p => inside p = false) (tasks c) ->
  all_done (schedule w pvPortMalloc vPortFree
              (one_by_one (seq 0 (List.length (tasks c)))) c) = true.
Proof.
  intros Hm Hout.
  destruct (one_by_one_done (seq 0 (List.length (tasks c))) c Hm Hout)
    as (_ & _ & Hdone).
  cbv zeta in Hdone. unfold all_done. apply forallb_forall. intros p' Hp'.
  apply In_nth_error in Hp'. destruct Hp' as [j Hj].
  assert (Hlt : (j < List.length (tasks c))%nat).
  { rewrite <- (length_schedule (one_by_one (seq 0 (List.length (tasks c)))) c).
    apply nth_error_Some. congruence. }
  destruct (nth_error (tasks c) j) as [p|] eqn:Hp;
    [|apply nth_error_None in Hp; lia].
  destruct (Hdone j p Hp) as (q & Hq & Hdq); [|congruence].
  left. apply in_seq. lia.
Qed.

(** X6. No schedule leads into a dead end.  After any schedule, letting the
    holder of the mutex (if there is one) make six steps and then each task
    in turn six steps brings every call to its return: a task is never left
    waiting for [memMutex] for ever. *)
Theorem never_stuck cs s0 sched :
  let c := schedule w pvPortMalloc vPortFree sched (racing cs s0) in
  let rest := match memMutex c with Some i => repeat i 6 | None => [] end
              ++ one_by_one (seq 0 (List.length cs)) in
  all_done (schedule w pvPortMalloc vPortFree (sched ++ rest) (racing cs s0))
  = true.
Proof.
  intros c rest. rewrite schedule_app. fold c. unfold rest.
  rewrite schedule_app.
  destruct (reachable_serialised cs s0 sched) as [order Hinv]. fold c in Hinv.
  pose proof Hinv as (Hlen & _ & _ & _ & Hlock).
  set (c1 := schedule w pvPortMalloc vPortFree
               match memMutex c with Some i => repeat i 6 | None => [] end c).
  assert (H1 : memMutex c1 = None /\
               Forall (fun p => inside p = false) (tasks c1) /\
               List.length (tasks c1) = List.length cs).
  { assert (Hlen1 : List.length (tasks c1) = List.length cs)
      by (unfold c1; now rewrite length_schedule).
    unfold c1. destruct (memMutex c) as [i|] eqn:Hm.
    - destruct Hlock as (_ & cl & p & _ & _ & Hp & Hin & _).
      assert (Hready : ready c i p) by (left; now split).
      destruct (run_alone i 6 c p Hp Hready (steps_left_bound p))
        as [Hm1 (d & Hd & Ht)].
      split; [assumption|]. split; [|unfold c1 in Hlen1; exact Hlen1].
      rewrite Ht. apply Forall_upd_except; [|now apply done_not_inside].
      intros j q Hne Hq. destruct (inside q) eqn:Hinq; [|reflexivity].
      pose proof (serialised_inside cs s0 c order j q Hinv Hq Hinq).
      congruence.
    - cbn. split; [assumption|]. split; [|assumption].
      apply Forall_forall. intros q Hq. apply In_nth_error in Hq.
      destruct Hq as [j Hj]. destruct (inside q) eqn:Hinq; [|reflexivity].
      pose proof (serialised_inside cs s0 c order j q Hinv Hj Hinq).
      congruence. }
  destruct H1 as (Hm1 & Hout1 & Hlen1). rewrite <- Hlen1.
  now apply one_by_one_all.
Qed.

(** X7. Whenever [memMutex] is free, the globals are those left by whole
    calls: the calls of the tasks that have returned, run one after the
    other in some order.  The calls of the other tasks have not touched
    them. *)
Theorem free_mutex_whole_calls cs s0 sched :
  let c := schedule w pvPortMalloc vPortFree sched (racing cs s0) in
  memMutex c = None ->
  exists order,
    NoDup order /\
    (forall i, In i order <->
               exists p, nth_error (tasks c) i = Some p /\ is_done p = true) /\
    serial w pvPortMalloc vPortFree (pick no_call cs order) s0
    = (pick FDone (tasks c) order, globals c).
Proof.
  intros c Hm.
  destruct (reachable_serialised cs s0 sched) as [order Hinv]. fold c in Hinv.
  exists order. pose proof Hinv as (Hlen & Hnd & Hrange & Hrest & Hlock).
  rewrite Hm in Hlock. split; [assumption|]. split; [|assumption].
  intros i. split.
  - intros Hi. specialize (Hrange i Hi).
    destruct (nth_error (tasks c) i) as [p|] eqn:Hp;
      [|apply nth_error_None in Hp; lia].
    exists p. split; [reflexivity|].
    exact (serialised_done _ _ _ _ _ _ Hinv Hi Hp).
  - intros (p & Hp & Hd).
    destruct (in_dec Nat.eq_dec i order) as [|Hni]; [assumption|exfalso].
    assert (Hlt : (i < List.length cs)%nat).
    { rewrite <- Hlen. apply nth_error_Some. congruence. }
    destruct (nth_error cs i) as [cl|] eqn:Hcl;
      [|apply nth_error_None in Hcl; lia].
    assert (Hmi : memMutex c <> Some i) by (rewrite Hm; discriminate).
    pose proof (waiting_not_done cl p (Hrest i cl p Hni Hmi Hcl Hp)).
    congruence.
Qed.

End QuotaAllocatorFacts.

(** ** Properties of the tasks *)

Section TasksFacts.

Variable w : Z.
Variable Heap : Type.
Variable pvPortMalloc : Z -> Heap -> Z * Heap.
Variable vPortFree : Z -> Heap -> Heap.
Variable portTICK_PERIOD_MS : Z.

Implicit Types (s g : World Heap) (n : Node Heap) (u : unit_id).

(** *** Sizes and depths *)

Lemma to_size_t_small x :
  16 <= w -> 0 <= x < 65536 -> to_size_t w x = x.
Proof.
  intros Hw Hx. pose proof (size_max_large w Hw).
  unfold to_size_t. apply Z.mod_small. lia.
Qed.

(** X8. With what [rand()] can return, [SensorTask] asks for 256 to 1279
    bytes and [CommTask] for 512 to 2559 bytes, both ends included (the
    comments say 1280 and 2560); [stressStack] is called with a depth of 4
    to 7 by the first and of 6 to 8 by the second. *)
Theorem request_sizes r :
  16 <= w -> 0 <= r ->
  256 <= sensor_allocSize w r <= 1279 /\
  512 <= comm_allocSize w r <= 2559 /\
  4 <= sensor_stress r <= 7 /\
  6 <= comm_stress r <= 8 /\
  sensor_allocSize w 0 = 256 /\ sensor_allocSize w 1023 = 1279 /\
  comm_allocSize w 0 = 512 /\ comm_allocSize w 2047 = 2559.
Proof.
  intros Hw Hr. unfold sensor_allocSize, comm_allocSize, sensor_stress,
    comm_stress.
  pose proof (Z.rem_bound_pos r 1024 Hr ltac:(lia)) as H1.
  pose proof (Z.rem_bound_pos r 2048 Hr ltac:(lia)) as H2.
  pose proof (Z.rem_bound_pos r 4 Hr ltac:(lia)) as H3.
  pose proof (Z.rem_bound_pos r 3 Hr ltac:(lia)) as H4.
  assert (E1 : to_size_t w (256 + Z.rem r 1024) = 256 + Z.rem r 1024)
    by (apply to_size_t_small; [assumption | lia]).
  assert (E2 : to_size_t w (512 + Z.rem r 2048) = 512 + Z.rem r 2048)
    by (apply to_size_t_small; [assumption | lia]).
  rewrite E1, E2.
  repeat (split; [lia|]).
  repeat split; apply to_size_t_small; try assumption; cbn; lia.
Qed.

(** *** stressStack *)

Lemma repeat_snoc {A} (x : A) k : repeat x k ++ [x] = repeat x (S k).
Proof. induction k as [|k IH]; cbn; [reflexivity|]. now rewrite IH. Qed.

Lemma stressStack_fuel_run k :
  forall n,
    stressStack_fuel k (Z.of_nat k) n
    = (tt, mkNode (shared n)
             (journal n ++ descent k ++ repeat Leave (S k))).
Proof.
  induction k as [|k IH]; intros n.
  - cbv [stressStack_fuel tbind tret note]. cbn. now rewrite <- app_assoc.
  - cbn [stressStack_fuel]. unfold tbind, note. cbn [shared journal].
    destruct (Z.ltb_spec 0 (Z.of_nat (S k))) as [_|]; [|lia].
    replace (Z.of_nat (S k) - 1) with (Z.of_nat k) by lia.
    rewrite IH. cbn [shared journal descent].
    rewrite <- !app_assoc. cbn [app].
    now rewrite (repeat_snoc Leave (S k)).
Qed.

Lemma stressStack_run depth n :
  stressStack depth n
  = (tt, mkNode (shared n) (journal n ++ stress_journal depth)).
Proof.
  unfold stressStack, stress_journal.
  destruct (Z.leb_spec depth 0) as [Hle|Hgt].
  - replace (Z.to_nat depth) with 0%nat by lia.
    cbv [stressStack_fuel tbind tret note].
    destruct (Z.ltb_spec 0 depth) as [|_]; [lia|]. cbn.
    now rewrite <- app_assoc.
  - rewrite <- (Z2Nat.id depth) at 2 by lia. apply stressStack_fuel_run.
Qed.




(** *** What a turn of a task does to the node *)

Lemma SensorTask_request_run r1 r2 self n :
  SensorTask_request w pvPortMalloc portTICK_PERIOD_MS r1 r2 self n
  = let sz := sensor_allocSize w r1 in
    let r := pvPortMallocWithQuota w pvPortMalloc sz self
               (log (SerialPrintf sensor_alloc_fmt [sz]) (shared n)) in
    ((sz, fst r),
     if fst r =? NULL
     then mkNode (snd r) (journal n ++ [Sleep (Z.quot 2000 portTICK_PERIOD_MS)])
     else mkNode (log (SerialPrintf sensor_ok_fmt
                         [sensorMemUsage (snd r); SENSOR_TASK_QUOTA]) (snd r))
                 (journal n ++ stress_journal (sensor_stress r2)
                    ++ [Sleep (Z.quot 1000 portTICK_PERIOD_MS)])).
Proof.
  destruct n as [g j]. cbv zeta. unfold SensorTask_request, tbind, lift, read, vTaskDelay, note,
    tret, Serial_printf, modify. cbn [shared journal fst snd].
  destruct (pvPortMallocWithQuota w pvPortMalloc _ self _) as [data s2].
  cbn [shared journal fst snd]. destruct (data =? NULL); [reflexivity|].
  rewrite stressStack_run. cbn [shared journal fst snd]. now rewrite <- app_assoc.
Qed.

Lemma SensorTask_release_run allocSize data self n :
  SensorTask_release w vPortFree portTICK_PERIOD_MS allocSize data self n
  = (tt, mkNode (log (SerialPrintf (sensor_freed ++ CRLF) [])
                   (snd (vPortFreeWithTracking w vPortFree data allocSize self
                           (shared n))))
           (journal n ++ [Sleep (Z.quot 2000 portTICK_PERIOD_MS)])).
Proof.
  destruct n as [g j]. unfold SensorTask_release, tbind, lift, vTaskDelay, note, Serial_println,
    Serial_printf, modify. cbn [shared journal fst snd].
  now destruct (vPortFreeWithTracking w vPortFree data allocSize self g)
    as [[] s2].
Qed.

(** A turn of the loop is the two parts, the second one only with memory in
    hand. *)
Lemma SensorTask_iteration_cut r1 r2 self n :
  SensorTask_iteration w pvPortMalloc vPortFree portTICK_PERIOD_MS r1 r2 self n
  = let (r, n1) :=
        SensorTask_request w pvPortMalloc portTICK_PERIOD_MS r1 r2 self n in
    if snd r =? NULL then (tt, n1)
    else SensorTask_release w vPortFree portTICK_PERIOD_MS (fst r) (snd r) self n1.
Proof.
  destruct n as [g j]. unfold SensorTask_iteration, SensorTask_request, SensorTask_release, tbind,
    lift, read, vTaskDelay, note, tret, Serial_println, Serial_printf, modify.
  cbn [shared journal fst snd].
  destruct (pvPortMallocWithQuota w pvPortMalloc _ self _) as [data s2].
  cbn [shared journal fst snd].
  destruct (data =? NULL) eqn:E; cbn [shared journal fst snd]; rewrite ?E;
    [reflexivity|].
  destruct (stressStack _ _) as [[] n2]. cbn [shared journal fst snd].
  rewrite E.
  now destruct (vPortFreeWithTracking w vPortFree data _ self _) as [[] s3].
Qed.

Lemma CommTask_request_run r1 r2 self n :
  CommTask_request w pvPortMalloc portTICK_PERIOD_MS r1 r2 self n
  = let sz := comm_allocSize w r1 in
    let r := pvPortMallocWithQuota w pvPortMalloc sz self
               (log (SerialPrintf comm_alloc_fmt [sz]) (shared n)) in
    ((sz, fst r),
     if fst r =? NULL
     then mkNode (snd r) (journal n ++ [Sleep (Z.quot 2500 portTICK_PERIOD_MS)])
     else mkNode (log (SerialPrintf comm_ok_fmt
                         [commMemUsage (snd r); COMM_TASK_QUOTA]) (snd r))
                 (journal n ++ stress_journal (comm_stress r2)
                    ++ [Sleep (Z.quot 800 portTICK_PERIOD_MS)])).
Proof.
  destruct n as [g j]. cbv zeta. unfold CommTask_request, tbind, lift, read, vTaskDelay, note,
    tret, Serial_printf, modify. cbn [shared journal fst snd].
  destruct (pvPortMallocWithQuota w pvPortMalloc _ self _) as [data s2].
  cbn [shared journal fst snd]. destruct (data =? NULL); [reflexivity|].
  rewrite stressStack_run. cbn [shared journal fst snd]. now rewrite <- app_assoc.
Qed.

Lemma CommTask_release_run allocSize packet self n :
  CommTask_release w vPortFree portTICK_PERIOD_MS allocSize packet self n
  = (tt, mkNode (log (SerialPrintf (comm_freed ++ CRLF) [])
                   (snd (vPortFreeWithTracking w vPortFree packet allocSize self
                           (shared n))))
           (journal n ++ [Sleep (Z.quot 2500 portTICK_PERIOD_MS)])).
Proof.
  destruct n as [g j]. unfold CommTask_release, tbind, lift, vTaskDelay, note, Serial_println,
    Serial_printf, modify. cbn [shared journal fst snd].
  now destruct (vPortFreeWithTracking w vPortFree packet allocSize self g)
    as [[] s2].
Qed.

Lemma CommTask_iteration_cut r1 r2 self n :
  CommTask_iteration w pvPortMalloc vPortFree portTICK_PERIOD_MS r1 r2 self n
  = let (r, n1) :=
        CommTask_request w pvPortMalloc portTICK_PERIOD_MS r1 r2 self n in
    if snd r =? NULL then (tt, n1)
    else CommTask_release w vPortFree portTICK_PERIOD_MS (fst r) (snd r) self n1.
Proof.
  destruct n as [g j]. unfold CommTask_iteration, CommTask_request, CommTask_release, tbind,
    lift, read, vTaskDelay, note, tret, Serial_println, Serial_printf, modify.
  cbn [shared journal fst snd].
  destruct (pvPortMallocWithQuota w pvPortMalloc _ self _) as [data s2].
  cbn [shared journal fst snd].
  destruct (data =? NULL) eqn:E; cbn [shared journal fst snd]; rewrite ?E;
    [reflexivity|].
  destruct (stressStack _ _) as [[] n2]. cbn [shared journal fst snd].
  rewrite E.
  now destruct (vPortFreeWithTracking w vPortFree data _ self _) as [[] s3].
Qed.

(** *** The trace and the handles across a call *)

Lemma malloc_handles s size h :
  let s' := snd (pvPortMallocWithQuota w pvPortMalloc size h s) in
  sensorTaskHandle s' = sensorTaskHandle s /\
  commTaskHandle s' = commTaskHandle s.
Proof.
  cbv zeta. destruct (unit_of h s) as [u|] eqn:Hu.
  - rewrite (malloc_registered w Heap pvPortMalloc s size h u Hu).
    destruct (_ <=? _); [|now split].
    destruct (pvPortMalloc size (heap s)) as [p hp].
    destruct (p =? NULL), u; now split.
  - rewrite (malloc_unregistered w Heap pvPortMalloc s size h Hu). now split.
Qed.

Lemma free_handles s ptr size h :
  let s' := snd (vPortFreeWithTracking w vPortFree ptr size h s) in
  sensorTaskHandle s' = sensorTaskHandle s /\
  commTaskHandle s' = commTaskHandle s.
Proof.
  cbv zeta. destruct (Z.eq_dec ptr NULL) as [->|Hp]; [now split|].
  destruct (unit_of h s) as [u|] eqn:Hu.
  - rewrite (free_registered w Heap vPortFree s ptr size h u Hp Hu). destruct u; now split.
  - rewrite (free_unregistered w Heap vPortFree s ptr size h Hp Hu). now split.
Qed.

Lemma malloc_trace s size h :
  let r := pvPortMallocWithQuota w pvPortMalloc size h s in
  (exists u, unit_of h s = Some u /\
             quota_of u < size_add w (used u s) size /\
             fst r = NULL /\
             trace (snd r)
             = trace s ++ [SemaphoreTake;
                           SerialPrintf (fmt_of u) [size; used u s; quota_of u];
                           SemaphoreGive]) \/
  (unit_of h s = None /\ fst r = NULL /\
   trace (snd r) = trace s ++ [SemaphoreTake; SemaphoreGive]) \/
  (exists u, unit_of h s = Some u /\
             size_add w (used u s) size <= quota_of u /\
             fst r = fst (pvPortMalloc size (heap s)) /\
             trace (snd r)
             = trace s ++ [SemaphoreTake; PortMalloc size (fst r);
                           SemaphoreGive]).
Proof.
  cbv zeta. destruct (unit_of h s) as [u|] eqn:Hu.
  - rewrite (malloc_registered w Heap pvPortMalloc s size h u Hu).
    destruct (Z.leb_spec (size_add w (used u s) size) (quota_of u)) as [Hle|Hgt].
    + right. right. exists u. split; [reflexivity|]. split; [assumption|].
      destruct (pvPortMalloc size (heap s)) as [p hp]. cbn [fst snd].
      split; [reflexivity|].
      destruct (p =? NULL), u; cbn; now rewrite <- !app_assoc.
    + left. exists u. cbn [fst snd]. repeat split; try assumption.
      cbn. now rewrite <- !app_assoc.
  - right. left. rewrite (malloc_unregistered w Heap pvPortMalloc s size h Hu).
    cbn [fst snd]. repeat split. cbn. now rewrite <- !app_assoc.
Qed.

Lemma free_trace s ptr size h :
  ptr <> NULL ->
  trace (snd (vPortFreeWithTracking w vPortFree ptr size h s))
  = trace s ++ [SemaphoreTake; PortFree ptr; SemaphoreGive].
Proof.
  intros Hp. destruct (unit_of h s) as [u|] eqn:Hu.
  - rewrite (free_registered w Heap vPortFree s ptr size h u Hp Hu). cbn [snd].
    destruct u; cbn; now rewrite <- !app_assoc.
  - rewrite (free_unregistered w Heap vPortFree s ptr size h Hp Hu). cbn [snd].
    cbn. now rewrite <- !app_assoc.
Qed.

(** A request, then, if it was granted, the release of what was obtained;
    [e1], [e2] and [e3] are what the task prints in between. *)
Lemma hold_and_release s sz self e1 (e2 : World Heap -> event) e3 :
  is_heap_call e1 = false -> (forall g, is_heap_call (e2 g) = false) ->
  is_heap_call e3 = false ->
  let r := pvPortMallocWithQuota w pvPortMalloc sz self (log e1 s) in
  let final :=
    if fst r =? NULL then snd r
    else log e3 (snd (vPortFreeWithTracking w vPortFree (fst r) sz self
                        (log (e2 (snd r)) (snd r)))) in
  (forall u, is_size_t w (used u s) -> used u final = used u s) /\
  paired sz (filter is_heap_call (emitted s final)).
Proof.
  intros H1 H2 H3. cbv zeta. split.
  - intros u HU.
    destruct (malloc_effect w Heap pvPortMalloc (log e1 s) sz self)
      as (p & s1 & E & Hh & Hcase).
    rewrite E. cbn [fst snd].
    destruct Hcase as [[-> Hsame] | (Hp & v & Hv & _ & _ & Hupd)].
    + cbn. now rewrite Hsame, used_log.
    + destruct (Z.eqb_spec p NULL) as [|_]; [contradiction|].
      destruct (free_effect w Heap vPortFree (log (e2 s1) s1) p sz self Hp)
        as [_ Hfree]. cbv zeta in Hfree.
      rewrite used_log, Hfree, unit_of_log, Hh, Hv, !used_log, !Hupd,
        unit_eqb_refl, !used_log.
      destruct (unit_eqb u v) eqn:Euv; [|reflexivity].
      apply unit_eqb_eq in Euv. subst v.
      unfold size_sub, size_add. rewrite Zminus_mod_idemp_l.
      replace (used u s + sz - sz) with (used u s) by lia.
      now apply Z.mod_small.
  - pose proof (malloc_trace (log e1 s) sz self) as Ht. cbv zeta in Ht.
    destruct (pvPortMallocWithQuota w pvPortMalloc sz self (log e1 s))
      as [p s1]. cbn [fst snd] in *.
    assert (Hcall : forall q,
               filter is_heap_call
                 [e1; SemaphoreTake; PortMalloc sz q; SemaphoreGive]
               = [PortMalloc sz q]) by (intros q; cbn; now rewrite H1).
    destruct (Z.eqb_spec p NULL) as [Hp|Hp].
    + destruct Ht as [(u & _ & _ & _ & Et) | [(_ & _ & Et) | (u & _ & _ & _ & Et)]].
      * left.
        rewrite (emitted_app _ s s1
                   [e1; SemaphoreTake;
                    SerialPrintf (fmt_of u) [sz; used u (log e1 s); quota_of u];
                    SemaphoreGive]).
        { cbn. now rewrite H1. }
        rewrite Et. cbn. now rewrite <- app_assoc.
      * left. rewrite (emitted_app _ s s1 [e1; SemaphoreTake; SemaphoreGive]).
        { cbn. now rewrite H1. }
        rewrite Et. cbn. now rewrite <- app_assoc.
      * right. left.
        rewrite (emitted_app _ s s1
                   [e1; SemaphoreTake; PortMalloc sz p; SemaphoreGive]).
        { rewrite Hcall. now rewrite Hp. }
        rewrite Et. cbn. now rewrite <- app_assoc.
    + destruct Ht as [(u & _ & _ & Hn & _) | [(_ & Hn & _) | (u & _ & _ & _ & Et)]];
        try contradiction.
      right. right. exists p. split; [assumption|].
      rewrite (emitted_app _ s _
                 ([e1; SemaphoreTake; PortMalloc sz p; SemaphoreGive]
                    ++ [e2 s1; SemaphoreTake; PortFree p; SemaphoreGive; e3])).
      { rewrite filter_app, Hcall. cbn. now rewrite H2, H3. }
      cbn [log trace]. rewrite (free_trace (log (e2 s1) s1) p sz self Hp).
      cbn [log trace]. rewrite Et. cbn. rewrite <- !app_assoc. reflexivity.
Qed.

(** X10. A turn of [SensorTask], and likewise of [CommTask], leaks nothing,
    whatever [rand()] returns, whatever the heap answers and whatever handle
    the task runs with: both usage counters end as they started, and the
    only heap calls of the turn are at most one [pvPortMalloc] of the size
    asked and, exactly when it returned memory, one [vPortFree] of the
    pointer it returned. *)
Theorem turns_leak_nothing r1 r2 self n :
  is_size_t w (sensorMemUsage (shared n)) ->
  is_size_t w (commMemUsage (shared n)) ->
  let a := snd (SensorTask_iteration w pvPortMalloc vPortFree
                  portTICK_PERIOD_MS r1 r2 self n) in
  let b := snd (CommTask_iteration w pvPortMalloc vPortFree
                  portTICK_PERIOD_MS r1 r2 self n) in
  (sensorMemUsage (shared a) = sensorMemUsage (shared n) /\
   commMemUsage (shared a) = commMemUsage (shared n) /\
   paired (sensor_allocSize w r1)
     (filter is_heap_call (emitted (shared n) (shared a)))) /\
  (sensorMemUsage (shared b) = sensorMemUsage (shared n) /\
   commMemUsage (shared b) = commMemUsage (shared n) /\
   paired (comm_allocSize w r1)
     (filter is_heap_call (emitted (shared n) (shared b)))).
Proof.
  intros HS HC. cbv zeta. split.
  - rewrite SensorTask_iteration_cut, SensorTask_request_run. cbv zeta.
    cbn [fst snd].
    destruct (hold_and_release (shared n) (sensor_allocSize w r1) self
                (SerialPrintf sensor_alloc_fmt [sensor_allocSize w r1])
                (fun g => SerialPrintf sensor_ok_fmt
                            [sensorMemUsage g; SENSOR_TASK_QUOTA])
                (SerialPrintf (sensor_freed ++ CRLF) [])
                eq_refl (fun _ => eq_refl) eq_refl) as [Hused Hpaired].
    cbv zeta in Hused, Hpaired.
    destruct (fst (pvPortMallocWithQuota w pvPortMalloc _ self _) =? NULL).
    + cbn [snd shared]. repeat split;
        [exact (Hused Sensor HS) | exact (Hused Comm HC) | exact Hpaired].
    + rewrite SensorTask_release_run. cbn [snd shared]. repeat split;
        [exact (Hused Sensor HS) | exact (Hused Comm HC) | exact Hpaired].
  - rewrite CommTask_iteration_cut, CommTask_request_run. cbv zeta.
    cbn [fst snd].
    destruct (hold_and_release (shared n) (comm_allocSize w r1) self
                (SerialPrintf comm_alloc_fmt [comm_allocSize w r1])
                (fun g => SerialPrintf comm_ok_fmt
                            [commMemUsage g; COMM_TASK_QUOTA])
                (SerialPrintf (comm_freed ++ CRLF) [])
                eq_refl (fun _ => eq_refl) eq_refl) as [Hused Hpaired].
    cbv zeta in Hused, Hpaired.
    destruct (fst (pvPortMallocWithQuota w pvPortMalloc _ self _) =? NULL).
    + cbn [snd shared]. repeat split;
        [exact (Hused Sensor HS) | exact (Hused Comm HC) | exact Hpaired].
    + rewrite CommTask_release_run. cbn [snd shared]. repeat split;
        [exact (Hused Sensor HS) | exact (Hused Comm HC) | exact Hpaired].
Qed.

(** *** The four tasks together *)

Lemma malloc_registered_cases s size h u :
  unit_of h s = Some u ->
  let r := pvPortMallocWithQuota w pvPortMalloc size h s in
  sensorTaskHandle (snd r) = sensorTaskHandle s /\
  commTaskHandle (snd r) = commTaskHandle s /\
  used (other u) (snd r) = used (other u) s /\
  ((quota_of u < size_add w (used u s) size /\
    fst r = NULL /\ used u (snd r) = used u s /\ heap (snd r) = heap s /\
    trace (snd r)
    = trace s ++ [SemaphoreTake;
                  SerialPrintf (fmt_of u) [size; used u s; quota_of u];
                  SemaphoreGive]) \/
   (size_add w (used u s) size <= quota_of u /\
    fst r = fst (pvPortMalloc size (heap s)) /\
    used u (snd r)
    = (if fst r =? NULL then used u s else size_add w (used u s) size) /\
    trace (snd r)
    = trace s ++ [SemaphoreTake; PortMalloc size (fst r); SemaphoreGive])).
Proof.
  intros Hu. cbv zeta. rewrite (malloc_registered w Heap pvPortMalloc s size h u Hu).
  destruct (Z.leb_spec (size_add w (used u s) size) (quota_of u)) as [Hle|Hgt].
  - destruct (pvPortMalloc size (heap s)) as [p hp]. cbn [fst snd].
    destruct (p =? NULL) eqn:Ep.
    + split; [reflexivity|]. split; [reflexivity|]. split.
      { now rewrite !used_log, used_set_heap. }
      right. split; [assumption|]. split; [reflexivity|]. split.
      { now rewrite !used_log, used_set_heap. }
      cbn. now rewrite <- !app_assoc.
    + split; [now destruct u|]. split; [now destruct u|]. split.
      { now rewrite used_log, used_set_other, used_log, used_set_heap, used_log. }
      right. split; [assumption|]. split; [reflexivity|]. split.
      { now rewrite used_log, used_set_used. }
      destruct u; cbn; now rewrite <- !app_assoc.
  - cbn [fst snd]. split; [reflexivity|]. split; [reflexivity|]. split.
    { now rewrite !used_log. }
    left. split; [assumption|]. split; [reflexivity|]. split.
    { now rewrite !used_log. }
    split; [reflexivity|]. cbn. now rewrite <- !app_assoc.
Qed.

Lemma free_registered_cases s ptr size h u :
  ptr <> NULL -> unit_of h s = Some u ->
  let s' := snd (vPortFreeWithTracking w vPortFree ptr size h s) in
  sensorTaskHandle s' = sensorTaskHandle s /\
  commTaskHandle s' = commTaskHandle s /\
  used (other u) s' = used (other u) s /\
  used u s' = size_sub w (used u s) size /\
  trace s' = trace s ++ [SemaphoreTake; PortFree ptr; SemaphoreGive].
Proof.
  intros Hp Hu. cbv zeta.
  rewrite (free_registered w Heap vPortFree s ptr size h u Hp Hu). cbn [snd].
  split; [now destruct u|]. split; [now destruct u|]. split.
  { now rewrite used_log, used_set_other, used_log, used_set_heap, used_log. }
  split; [now rewrite used_log, used_set_used|].
  destruct u; cbn; now rewrite <- !app_assoc.
Qed.

Lemma size_add_0 x : 16 <= w -> 0 <= x < 65536 -> size_add w 0 x = x.
Proof.
  intros Hw Hx. pose proof (size_max_large w Hw).
  unfold size_add. apply Z.mod_small. lia.
Qed.

Lemma size_sub_self x : size_sub w x x = 0.
Proof. unfold size_sub. rewrite Z.sub_diag. apply Zmod_0_l. Qed.

Lemma sensor_allocSize_range r :
  16 <= w -> 0 <= r -> 256 <= sensor_allocSize w r <= 1279.
Proof.
  intros Hw Hr. unfold sensor_allocSize.
  pose proof (Z.rem_bound_pos r 1024 Hr ltac:(lia)).
  rewrite to_size_t_small by (assumption || lia). lia.
Qed.

Lemma comm_allocSize_range r :
  16 <= w -> 0 <= r -> 512 <= comm_allocSize w r <= 2559.
Proof.
  intros Hw Hr. unfold comm_allocSize.
  pose proof (Z.rem_bound_pos r 2048 Hr ltac:(lia)).
  rewrite to_size_t_small by (assumption || lia). lia.
Qed.

Lemma quiet_more t0 g g' new :
  quiet t0 g -> trace g' = trace g ++ new ->
  existsb (is_rejection Sensor) new = false -> quiet t0 g'.
Proof.
  intros (evs & Et & Hq) Hg Hnew. exists (evs ++ new). split.
  - now rewrite Hg, Et, app_assoc.
  - now rewrite existsb_app, Hq, Hnew.
Qed.

Lemma quiet_log t0 g e :
  quiet t0 g -> is_rejection Sensor e = false -> quiet t0 (log e g).
Proof.
  intros Hq He. apply (quiet_more t0 g _ [e] Hq); [reflexivity|].
  cbn. now rewrite He.
Qed.

Lemma wake_sensor_request sh ch t0 sys r1 r2 :
  16 <= w -> 0 <= r1 ->
  settled sh ch t0 sys -> sensorHeld sys = None ->
  settled sh ch t0 (wake w pvPortMalloc vPortFree portTICK_PERIOD_MS
                      (SensorTurn r1 r2) sys).
Proof.
  intros Hw Hr (Hsh & Hch & HS & HC & HsH & HcH & Htr) Hnone.
  cbv zeta in *. unfold wake. rewrite Hnone, SensorTask_request_run.
  cbv zeta. rewrite Hnone in HS. cbn [bytes_in_hand] in HS.
  pose proof (sensor_allocSize_range r1 Hw Hr) as Hsz.
  set (sz := sensor_allocSize w r1) in *.
  set (s1 := log (SerialPrintf sensor_alloc_fmt [sz]) (shared (node sys))).
  assert (Hu : unit_of (sensorTaskHandle (shared (node sys))) s1 = Some Sensor)
    by (apply unit_of_sensor; reflexivity).
  assert (Htr0 : quiet t0 s1) by (apply quiet_log; [assumption|reflexivity]).
  destruct (malloc_registered_cases s1 sz _ Sensor Hu)
    as (Hh1 & Hh2 & Hother & Hcase).
  cbv zeta in Hcase. cbn [other used] in *.
  change (sensorMemUsage s1) with (sensorMemUsage (shared (node sys))) in *.
  rewrite HS in Hcase. rewrite (size_add_0 sz Hw) in Hcase by lia.
  destruct Hcase as [(Hq & _) | (_ & _ & Hused & Htrace)];
    [unfold quota_of, SENSOR_TASK_QUOTA in Hq; lia|].
  set (r := pvPortMallocWithQuota w pvPortMalloc sz
             (sensorTaskHandle (shared (node sys))) s1) in *.
  assert (Htr1 : quiet t0 (snd r))
    by (apply (quiet_more t0 s1 _ _ Htr0 Htrace); reflexivity).
  change (sensorTaskHandle s1) with (sensorTaskHandle (shared (node sys))) in *.
  change (commTaskHandle s1) with (commTaskHandle (shared (node sys))) in *.
  change (commMemUsage s1) with (commMemUsage (shared (node sys))) in *.
  unfold settled, in_hand. cbn [node sensorHeld commHeld fst snd].
  destruct (Z.eqb_spec (fst r) NULL) as [Hp|Hp]; cbn [shared bytes_in_hand].
  - split; [congruence|]. split; [congruence|]. split; [assumption|].
    split; [congruence|]. split; [intros ? ? [=]|]. split; assumption.
  - split; [exact (eq_trans Hh1 Hsh)|]. split; [exact (eq_trans Hh2 Hch)|].
    split; [exact Hused|]. split; [exact (eq_trans Hother HC)|].
    split; [intros ? ? [= <- <-]; now split|].
    split; [assumption|]. apply quiet_log; [assumption|reflexivity].
Qed.

Lemma wake_sensor_release sh ch t0 sys r1 r2 sz d :
  settled sh ch t0 sys -> sensorHeld sys = Some (sz, d) ->
  settled sh ch t0 (wake w pvPortMalloc vPortFree portTICK_PERIOD_MS
                      (SensorTurn r1 r2) sys).
Proof.
  intros (Hsh & Hch & HS & HC & HsH & HcH & Htr) Hsome.
  cbv zeta in *. unfold wake. rewrite Hsome, SensorTask_release_run.
  rewrite Hsome in HS. cbn [bytes_in_hand] in HS.
  destruct (HsH sz d Hsome) as [_ Hd].
  assert (Hu : unit_of (sensorTaskHandle (shared (node sys)))
                 (shared (node sys)) = Some Sensor)
    by (apply unit_of_sensor; reflexivity).
  destruct (free_registered_cases (shared (node sys)) d sz _ Sensor Hd Hu)
    as (Hh1 & Hh2 & Hother & Hused & Htrace).
  cbn [other used] in *. rewrite HS, size_sub_self in Hused.
  unfold settled. cbn [node sensorHeld commHeld shared bytes_in_hand].
  split; [exact (eq_trans Hh1 Hsh)|]. split; [exact (eq_trans Hh2 Hch)|].
  split; [exact Hused|]. split; [exact (eq_trans Hother HC)|].
  split; [intros ? ? [=]|]. split; [assumption|].
  apply quiet_log; [|reflexivity].
  apply (quiet_more t0 _ _ _ Htr Htrace). reflexivity.
Qed.

Lemma wake_comm_request sh ch t0 sys r1 r2 :
  16 <= w -> sh <> ch -> 0 <= r1 ->
  settled sh ch t0 sys -> commHeld sys = None ->
  settled sh ch t0 (wake w pvPortMalloc vPortFree portTICK_PERIOD_MS
                      (CommTurn r1 r2) sys).
Proof.
  intros Hw Hne Hr (Hsh & Hch & HS & HC & HsH & HcH & Htr) Hnone.
  cbv zeta in *. unfold wake. rewrite Hnone, CommTask_request_run.
  cbv zeta. rewrite Hnone in HC. cbn [bytes_in_hand] in HC.
  pose proof (comm_allocSize_range r1 Hw Hr) as Hsz.
  set (sz := comm_allocSize w r1) in *.
  set (s1 := log (SerialPrintf comm_alloc_fmt [sz]) (shared (node sys))).
  assert (Hu : unit_of (commTaskHandle (shared (node sys))) s1 = Some Comm).
  { apply unit_of_comm; [reflexivity|]. cbn. congruence. }
  assert (Htr0 : quiet t0 s1) by (apply quiet_log; [assumption|reflexivity]).
  destruct (malloc_registered_cases s1 sz _ Comm Hu)
    as (Hh1 & Hh2 & Hother & Hcase).
  cbv zeta in Hcase. cbn [other used] in *.
  change (commMemUsage s1) with (commMemUsage (shared (node sys))) in *.
  change (sensorTaskHandle s1) with (sensorTaskHandle (shared (node sys))) in *.
  change (commTaskHandle s1) with (commTaskHandle (shared (node sys))) in *.
  change (sensorMemUsage s1) with (sensorMemUsage (shared (node sys))) in *.
  rewrite HC in Hcase. rewrite (size_add_0 sz Hw) in Hcase by lia.
  set (r := pvPortMallocWithQuota w pvPortMalloc sz
             (commTaskHandle (shared (node sys))) s1) in *.
  unfold settled, in_hand. cbn [node sensorHeld commHeld fst snd].
  destruct Hcase as [(_ & Hp & Hused & _ & Htrace) | (Hq & _ & Hused & Htrace)].
  - rewrite Hp. cbn [Z.eqb NULL shared bytes_in_hand].
    split; [congruence|]. split; [congruence|]. split; [congruence|].
    split; [congruence|]. split; [assumption|]. split; [intros ? ? [=]|].
    apply (quiet_more t0 s1 _ _ Htr0 Htrace). reflexivity.
  - assert (Htr1 : quiet t0 (snd r))
      by (apply (quiet_more t0 s1 _ _ Htr0 Htrace); reflexivity).
    destruct (Z.eqb_spec (fst r) NULL) as [Hp|Hp]; cbn [shared bytes_in_hand].
    + split; [congruence|]. split; [congruence|]. split; [congruence|].
      split; [assumption|]. split; [assumption|]. split; [intros ? ? [=]|].
      assumption.
    + split; [exact (eq_trans Hh1 Hsh)|]. split; [exact (eq_trans Hh2 Hch)|].
      split; [exact (eq_trans Hother HS)|]. split; [exact Hused|].
      split; [assumption|].
      split; [intros ? ? [= <- <-]; unfold quota_of, COMM_TASK_QUOTA in Hq;
              split; [lia|assumption]|].
      apply quiet_log; [assumption|reflexivity].
Qed.

Lemma wake_comm_release sh ch t0 sys r1 r2 sz d :
  sh <> ch ->
  settled sh ch t0 sys -> commHeld sys = Some (sz, d) ->
  settled sh ch t0 (wake w pvPortMalloc vPortFree portTICK_PERIOD_MS
                      (CommTurn r1 r2) sys).
Proof.
  intros Hne (Hsh & Hch & HS & HC & HsH & HcH & Htr) Hsome.
  cbv zeta in *. unfold wake. rewrite Hsome, CommTask_release_run.
  rewrite Hsome in HC. cbn [bytes_in_hand] in HC.
  destruct (HcH sz d Hsome) as [_ Hd].
  assert (Hu : unit_of (commTaskHandle (shared (node sys)))
                 (shared (node sys)) = Some Comm).
  { apply unit_of_comm; [reflexivity|]. congruence. }
  destruct (free_registered_cases (shared (node sys)) d sz _ Comm Hd Hu)
    as (Hh1 & Hh2 & Hother & Hused & Htrace).
  cbn [other used] in *. rewrite HC, size_sub_self in Hused.
  unfold settled. cbn [node sensorHeld commHeld shared bytes_in_hand].
  split; [exact (eq_trans Hh1 Hsh)|]. split; [exact (eq_trans Hh2 Hch)|].
  split; [exact (eq_trans Hother HS)|]. split; [exact Hused|].
  split; [assumption|]. split; [intros ? ? [=]|].
  apply quiet_log; [|reflexivity].
  apply (quiet_more t0 _ _ _ Htr Htrace). reflexivity.
Qed.

Lemma wake_settled sh ch t0 sys t :
  16 <= w -> sh <> ch -> rand_ok t ->
  settled sh ch t0 sys ->
  settled sh ch t0 (wake w pvPortMalloc vPortFree portTICK_PERIOD_MS t sys).
Proof.
  intros Hw Hne Hr Hinv. destruct t as [r1 r2 | r1 r2 | a b | a b c].
  - destruct Hr as [Hr1 _]. destruct (sensorHeld sys) as [[sz d]|] eqn:Hh.
    + now apply (wake_sensor_release sh ch t0 sys r1 r2 sz d).
    + now apply wake_sensor_request.
  - destruct Hr as [Hr1 _]. destruct (commHeld sys) as [[sz d]|] eqn:Hh.
    + now apply (wake_comm_release sh ch t0 sys r1 r2 sz d).
    + now apply wake_comm_request.
  - destruct Hinv as (Hsh & Hch & HS & HC & HsH & HcH & Htr).
    unfold settled, wake, HeapMonitorTask_iteration, tbind, lift, vTaskDelay,
      note, Serial_printf, modify.
    cbn [node sensorHeld commHeld shared journal fst snd].
    do 6 (split; [assumption|]).
    apply quiet_log; [assumption|reflexivity].
  - destruct Hinv as (Hsh & Hch & HS & HC & HsH & HcH & Htr).
    unfold settled, wake, StackMonitorTask_iteration, tbind, lift, vTaskDelay,
      note, Serial_printf, modify.
    cbn [node sensorHeld commHeld shared journal fst snd].
    do 6 (split; [assumption|]).
    apply quiet_log; [assumption|reflexivity].
Qed.

Lemma turns_settled sh ch t0 ts :
  16 <= w -> sh <> ch -> Forall rand_ok ts ->
  forall sys,
    settled sh ch t0 sys ->
    settled sh ch t0 (turns w pvPortMalloc vPortFree portTICK_PERIOD_MS ts sys).
Proof.
  intros Hw Hne Hall. induction Hall as [|t ts Ht _ IH]; intros sys Hinv.
  - exact Hinv.
  - cbn. apply IH. now apply wake_settled.
Qed.

Lemma started_settled g :
  sensorMemUsage g = 0 -> commMemUsage g = 0 ->
  settled (sensorTaskHandle g) (commTaskHandle g) (trace g) (started g).
Proof.
  intros HS HC. unfold settled, started. cbn [node shared sensorHeld commHeld
    bytes_in_hand].
  split; [reflexivity|]. split; [reflexivity|]. split; [assumption|].
  split; [assumption|]. split; [intros ? ? [=]|]. split; [intros ? ? [=]|].
  exists []. split; [now rewrite app_nil_r | reflexivity].
Qed.

(** X11. The four tasks taking turns, started with both counters at 0 and
    two distinct handles: whatever the order of the turns, whatever [rand()]
    returns and whatever the heap answers, each counter is exactly the size
    of what its task has in hand (0 when it has nothing), the sensor counter
    never exceeds 1279 and the comm counter never exceeds its quota. *)
Theorem counters_follow_the_tasks g0 ts :
  16 <= w ->
  sensorTaskHandle g0 <> commTaskHandle g0 ->
  sensorMemUsage g0 = 0 -> commMemUsage g0 = 0 ->
  Forall rand_ok ts ->
  let sys := turns w pvPortMalloc vPortFree portTICK_PERIOD_MS ts (started g0) in
  let g := shared (node sys) in
  sensorMemUsage g = bytes_in_hand (sensorHeld sys) /\
  commMemUsage g = bytes_in_hand (commHeld sys) /\
  0 <= sensorMemUsage g <= 1279 /\
  0 <= commMemUsage g <= COMM_TASK_QUOTA /\
  (sensorHeld sys = None -> sensorMemUsage g = 0) /\
  (commHeld sys = None -> commMemUsage g = 0).
Proof.
  intros Hw Hne HS HC Hall sys g.
  destruct (turns_settled _ _ (trace g0) ts Hw Hne Hall (started g0)
              (started_settled g0 HS HC))
    as (_ & _ & HS' & HC' & HsH & HcH & _).
  fold sys in HS', HC', HsH, HcH. cbv zeta in HS', HC'. fold g in HS', HC'.
  split; [assumption|]. split; [assumption|]. rewrite HS', HC'.
  unfold COMM_TASK_QUOTA.
  destruct (sensorHeld sys) as [[sz d]|]; destruct (commHeld sys) as [[sz' d']|];
    cbn [bytes_in_hand];
    try (pose proof (proj1 (HsH sz d eq_refl)));
    try (pose proof (proj1 (HcH sz' d' eq_refl)));
    repeat split; try lia; try discriminate.
Qed.

(** X12. In the same setting the quota never stands in the way of the
    sensor task: whatever happened, no "Quota exceeded" line of the sensor
    task has been printed since the start.  Its requests fail only when the
    heap has no memory. *)
Theorem sensor_is_never_turned_down g0 ts :
  16 <= w ->
  sensorTaskHandle g0 <> commTaskHandle g0 ->
  sensorMemUsage g0 = 0 -> commMemUsage g0 = 0 ->
  Forall rand_ok ts ->
  let sys := turns w pvPortMalloc vPortFree portTICK_PERIOD_MS ts (started g0) in
  existsb (is_rejection Sensor) (emitted g0 (shared (node sys))) = false.
Proof.
  intros Hw Hne HS HC Hall sys.
  destruct (turns_settled _ _ (trace g0) ts Hw Hne Hall (started g0)
              (started_settled g0 HS HC))
    as (_ & _ & _ & _ & _ & _ & evs & Et & Hq).
  fold sys in Et. now rewrite (emitted_app _ g0 _ evs Et).
Qed.

(** X13. [CommTask] can ask for more than its quota allows.  A request made
    with nothing in hand is turned down exactly when [512 + rand() % 2048]
    exceeds [COMM_TASK_QUOTA], that is when [rand() % 2048] is above 1536:
    the heap is not asked, the "Quota exceeded" line is printed with a usage
    of 0, and the task goes to its sleep of 2500 ms without calling
    [stressStack].  In the other case the heap is asked for that size, its
    answer is what the task gets, and no such line is printed. *)
Theorem comm_task_asks_too_much n r1 r2 :
  16 <= w -> 0 <= r1 ->
  sensorTaskHandle (shared n) <> commTaskHandle (shared n) ->
  commMemUsage (shared n) = 0 ->
  let sz := 512 + Z.rem r1 2048 in
  let out := CommTask_request w pvPortMalloc portTICK_PERIOD_MS r1 r2
               (commTaskHandle (shared n)) n in
  let g' := shared (snd out) in
  fst (fst out) = sz /\
  if COMM_TASK_QUOTA <? sz
  then snd (fst out) = NULL /\ heap g' = heap (shared n) /\
       commMemUsage g' = 0 /\
       emitted (shared n) g'
       = [SerialPrintf comm_alloc_fmt [sz]; SemaphoreTake;
          SerialPrintf comm_fmt [sz; 0; COMM_TASK_QUOTA]; SemaphoreGive] /\
       journal (snd out)
       = journal n ++ [Sleep (Z.quot 2500 portTICK_PERIOD_MS)]
  else snd (fst out) = fst (pvPortMalloc sz (heap (shared n))) /\
       existsb (is_rejection Comm) (emitted (shared n) g') = false /\
       filter is_heap_call (emitted (shared n) g')
       = [PortMalloc sz (snd (fst out))].
Proof.
  intros Hw Hr Hne HC. cbv zeta. rewrite CommTask_request_run. cbv zeta.
  cbn [fst snd].
  pose proof (Z.rem_bound_pos r1 2048 Hr ltac:(lia)) as Hrem.
  assert (Esz : comm_allocSize w r1 = 512 + Z.rem r1 2048).
  { unfold comm_allocSize. apply to_size_t_small; [assumption|lia]. }
  rewrite Esz. set (sz := 512 + Z.rem r1 2048) in *.
  split; [reflexivity|].
  set (s1 := log (SerialPrintf comm_alloc_fmt [sz]) (shared n)).
  assert (Hu : unit_of (commTaskHandle (shared n)) s1 = Some Comm).
  { apply unit_of_comm; [reflexivity|]. cbn. congruence. }
  destruct (malloc_registered_cases s1 sz _ Comm Hu)
    as (_ & _ & _ & Hcase).
  cbv zeta in Hcase. cbn [used] in Hcase.
  change (commMemUsage s1) with (commMemUsage (shared n)) in Hcase.
  change (heap s1) with (heap (shared n)) in Hcase.
  change (trace s1) with (trace (shared n) ++ [SerialPrintf comm_alloc_fmt [sz]])
    in Hcase.
  rewrite HC in Hcase. rewrite (size_add_0 sz Hw) in Hcase by lia.
  set (r := pvPortMallocWithQuota w pvPortMalloc sz
             (commTaskHandle (shared n)) s1) in *.
  unfold quota_of in Hcase.
  destruct (Z.ltb_spec COMM_TASK_QUOTA sz) as [Hover|Hin];
    destruct Hcase as [(Hq & Hp & Hused & Hheap & Htrace)
                      | (Hq & Hp & Hused & Htrace)]; try lia.
  - rewrite Hp. cbn [Z.eqb NULL shared journal].
    split; [reflexivity|]. split; [exact Hheap|]. split; [exact Hused|].
    split; [|reflexivity].
    apply emitted_app. rewrite Htrace, <- app_assoc. reflexivity.
  - split; [exact Hp|].
    destruct (Z.eqb_spec (fst r) NULL) as [En|En]; cbn [shared].
    + rewrite (emitted_app _ (shared n) (snd r)
                 ([SerialPrintf comm_alloc_fmt [sz]]
                  ++ [SemaphoreTake; PortMalloc sz (fst r); SemaphoreGive]))
        by (now rewrite Htrace, <- app_assoc).
      split; reflexivity.
    + rewrite (emitted_app _ (shared n) (log _ (snd r))
                 ([SerialPrintf comm_alloc_fmt [sz]]
                  ++ [SemaphoreTake; PortMalloc sz (fst r); SemaphoreGive]
                  ++ [SerialPrintf comm_ok_fmt
                        [commMemUsage (snd r); COMM_TASK_QUOTA]]))
        by (change (trace (log ?e ?s)) with (trace s ++ [e]);
            rewrite Htrace, <- !app_assoc; reflexivity).
      split; reflexivity.
Qed.

(** *** The tasks as callers of the allocator *)

Lemma agree_refl s : agree s s.
Proof. now repeat split. Qed.

Lemma agree_log s s' e : agree s s' -> agree s (log e s').
Proof. intros H. exact H. Qed.

Lemma malloc_agree s s' size h :
  agree s s' ->
  fst (pvPortMallocWithQuota w pvPortMalloc size h s)
  = fst (pvPortMallocWithQuota w pvPortMalloc size h s') /\
  agree (snd (pvPortMallocWithQuota w pvPortMalloc size h s))
        (snd (pvPortMallocWithQuota w pvPortMalloc size h s')).
Proof.
  destruct s as [a b c d hp tr], s' as [a' b' c' d' hp' tr'].
  intros (Ha & Hb & Hc & Hd & Hh). cbn in Ha, Hb, Hc, Hd, Hh. subst a' b' c' d' hp'.
  unfold pvPortMallocWithQuota, bind, get, ret, modify, xSemaphoreTake,
    xSemaphoreGive, call_pvPortMalloc, Serial_printf, agree.
  cbn.
  destruct (h =? a); [|destruct (h =? b)].
  - destruct (size_add w c size <=? SENSOR_TASK_QUOTA); cbn; [|now repeat split].
    destruct (pvPortMalloc size hp) as [p hp1]. cbn.
    destruct (p =? NULL); cbn; now repeat split.
  - destruct (size_add w d size <=? COMM_TASK_QUOTA); cbn; [|now repeat split].
    destruct (pvPortMalloc size hp) as [p hp1]. cbn.
    destruct (p =? NULL); cbn; now repeat split.
  - cbn. now repeat split.
Qed.

Lemma free_agree s s' ptr size h :
  agree s s' ->
  agree (snd (vPortFreeWithTracking w vPortFree ptr size h s))
        (snd (vPortFreeWithTracking w vPortFree ptr size h s')).
Proof.
  destruct s as [a b c d hp tr], s' as [a' b' c' d' hp' tr'].
  intros (Ha & Hb & Hc & Hd & Hh). cbn in Ha, Hb, Hc, Hd, Hh. subst a' b' c' d' hp'.
  unfold vPortFreeWithTracking, bind, get, ret, modify, xSemaphoreTake,
    xSemaphoreGive, call_vPortFree, agree.
  destruct (ptr =? NULL); cbn; [now repeat split|].
  destruct (h =? a); [|destruct (h =? b)]; cbn; now repeat split.
Qed.

Lemma record_eqb_refl (r : record) : record_eqb r r = true.
Proof.
  destruct r as [[p n] h]. unfold record_eqb. now rewrite !Z.eqb_refl.
Qed.

Lemma In_holds (r : record) out : In r out -> holds r out = true.
Proof.
  induction out as [|x out IH]; cbn; [contradiction|].
  intros [-> | H].
  - now rewrite record_eqb_refl.
  - rewrite (IH H). apply orb_true_r.
Qed.

Lemma drop_perm (r : record) out :
  In r out -> Permutation out (r :: drop r out).
Proof.
  induction out as [|x out IH]; cbn; [contradiction|].
  destruct (record_eqb r x) eqn:E.
  - intros _. apply record_eqb_eq in E. now subst x.
  - intros [-> | H]; [now rewrite record_eqb_refl in E|].
    rewrite perm_swap. apply perm_skip. now apply IH.
Qed.

Lemma drop_held (r : record) out rest :
  Permutation out (r :: rest) -> Permutation (drop r out) rest.
Proof.
  intros H. apply (Permutation_cons_inv (a := r)).
  rewrite <- H. symmetry. apply drop_perm.
  apply (Permutation_in r (Permutation_sym H)). now left.
Qed.

Lemma wake_contract sh ch t0 sys t s out :
  16 <= w -> sh <> ch -> rand_ok t ->
  settled sh ch t0 sys ->
  agree s (shared (node sys)) -> Permutation out (records sys) ->
  let sys' := wake w pvPortMalloc vPortFree portTICK_PERIOD_MS t sys in
  let cs := call_of w t sys in
  exists out',
    held w pvPortMalloc vPortFree out cs s = Some out' /\
    Permutation out' (records sys') /\
    agree (run w pvPortMalloc vPortFree cs s) (shared (node sys')).
Proof.
  intros Hw Hne Hr Hinv Hag Hperm. cbv zeta.
  pose proof (wake_settled sh ch t0 sys t Hw Hne Hr Hinv) as Hinv'.
  destruct Hinv as (Hsh & Hch & _ & _ & HsH & HcH & _).
  destruct Hinv' as (Hsh' & Hch' & _ & _ & _ & _ & _).
  cbv zeta in *.
  unfold records in *. rewrite Hsh', Hch'. rewrite Hsh, Hch in Hperm.
  destruct t as [r1 r2 | r1 r2 | a b | a b c]; unfold wake, call_of in *.
  - rewrite Hsh in *. destruct (sensorHeld sys) as [[sz d]|] eqn:Hh.
    + rewrite SensorTask_release_run. cbn [node sensorHeld commHeld shared].
      cbn [held run fold_left exec].
      assert (Hin : In (d, sz, sh) out).
      { apply (Permutation_in _ (Permutation_sym Hperm)). now left. }
      rewrite (In_holds _ _ Hin). eexists. split; [reflexivity|]. split.
      * now apply drop_held.
      * apply agree_log. now apply free_agree.
    + rewrite SensorTask_request_run. cbv zeta.
      cbn [held run fold_left exec].
      set (sz := sensor_allocSize w r1).
      set (s1 := log (SerialPrintf sensor_alloc_fmt [sz]) (shared (node sys))).
      destruct (malloc_agree s s1 sz sh (agree_log _ _ _ Hag)) as [Hp Hag'].
      destruct (pvPortMallocWithQuota w pvPortMalloc sz sh s) as [p s'].
      destruct (pvPortMallocWithQuota w pvPortMalloc sz sh s1) as [p1 s1'].
      cbn [fst snd] in *. subst p1. unfold in_hand. cbn [snd].
      destruct (p =? NULL); cbn [node sensorHeld commHeld shared].
      * eexists. split; [reflexivity|]. split; assumption.
      * eexists. split; [reflexivity|]. split.
        -- cbn [app]. now apply perm_skip.
        -- now apply agree_log.
  - rewrite Hch in *. destruct (commHeld sys) as [[sz d]|] eqn:Hh.
    + rewrite CommTask_release_run. cbn [node sensorHeld commHeld shared].
      cbn [held run fold_left exec].
      assert (Hin : In (d, sz, ch) out).
      { apply (Permutation_in _ (Permutation_sym Hperm)).
        apply in_or_app. right. now left. }
      rewrite (In_holds _ _ Hin). eexists. split; [reflexivity|]. split.
      * apply drop_held. rewrite Hperm. rewrite app_nil_r.
        symmetry. apply Permutation_cons_append.
      * apply agree_log. now apply free_agree.
    + rewrite CommTask_request_run. cbv zeta.
      cbn [held run fold_left exec].
      set (sz := comm_allocSize w r1).
      set (s1 := log (SerialPrintf comm_alloc_fmt [sz]) (shared (node sys))).
      destruct (malloc_agree s s1 sz ch (agree_log _ _ _ Hag)) as [Hp Hag'].
      destruct (pvPortMallocWithQuota w pvPortMalloc sz ch s) as [p s'].
      destruct (pvPortMallocWithQuota w pvPortMalloc sz ch s1) as [p1 s1'].
      cbn [fst snd] in *. subst p1. unfold in_hand. cbn [snd].
      destruct (p =? NULL); cbn [node sensorHeld commHeld shared].
      * eexists. split; [reflexivity|]. split; assumption.
      * eexists. split; [reflexivity|]. split.
        -- rewrite app_nil_r in Hperm. rewrite Hperm.
           apply Permutation_cons_append.
        -- now apply agree_log.
  - unfold HeapMonitorTask_iteration, tbind, lift, vTaskDelay, note,
      Serial_printf, modify. cbn [node sensorHeld commHeld shared journal fst snd].
    cbn [held run fold_left]. eexists. split; [reflexivity|].
    split; [assumption|]. now apply agree_log.
  - unfold StackMonitorTask_iteration, tbind, lift, vTaskDelay, note,
      Serial_printf, modify. cbn [node sensorHeld commHeld shared journal fst snd].
    cbn [held run fold_left]. eexists. split; [reflexivity|].
    split; [assumption|]. now apply agree_log.
Qed.

Lemma held_app out cs1 cs2 s :
  held w pvPortMalloc vPortFree out (cs1 ++ cs2) s
  = match held w pvPortMalloc vPortFree out cs1 s with
    | Some out' =>
        held w pvPortMalloc vPortFree out' cs2
          (run w pvPortMalloc vPortFree cs1 s)
    | None => None
    end.
Proof.
  revert out s. induction cs1 as [|[size h | p size h] cs1 IH]; intros out s.
  - reflexivity.
  - cbn [app held run fold_left exec].
    destruct (pvPortMallocWithQuota w pvPortMalloc size h s) as [p s'].
    cbn [snd]. apply IH.
  - cbn [app held run fold_left exec].
    destruct (holds (p, size, h) out); [apply IH | reflexivity].
Qed.

Lemma run_app cs1 cs2 s :
  run w pvPortMalloc vPortFree (cs1 ++ cs2) s
  = run w pvPortMalloc vPortFree cs2 (run w pvPortMalloc vPortFree cs1 s).
Proof. unfold run. apply fold_left_app. Qed.

Lemma turns_contract sh ch t0 ts :
  16 <= w -> sh <> ch -> Forall rand_ok ts ->
  forall sys s out,
    settled sh ch t0 sys ->
    agree s (shared (node sys)) -> Permutation out (records sys) ->
    let sys' := turns w pvPortMalloc vPortFree portTICK_PERIOD_MS ts sys in
    let cs := calls_of w pvPortMalloc vPortFree portTICK_PERIOD_MS ts sys in
    exists out',
      held w pvPortMalloc vPortFree out cs s = Some out' /\
      Permutation out' (records sys') /\
      agree (run w pvPortMalloc vPortFree cs s) (shared (node sys')).
Proof.
  intros Hw Hne Hall. induction Hall as [|t ts Ht _ IH];
    intros sys s out Hinv Hag Hperm; cbv zeta.
  - exists out. repeat split; try assumption; apply Hag.
  - cbn [calls_of turns fold_left].
    destruct (wake_contract sh ch t0 sys t s out Hw Hne Ht Hinv Hag Hperm)
      as (out1 & Hheld & Hperm1 & Hag1).
    destruct (IH _ _ _ (wake_settled sh ch t0 sys t Hw Hne Ht Hinv) Hag1 Hperm1)
      as (out2 & Hheld2 & Hperm2 & Hag2).
    exists out2. rewrite held_app, Hheld, run_app.
    split; [exact Hheld2|]. split; [exact Hperm2 | exact Hag2].
Qed.

(** X14. The four tasks are callers that keep the contract of the
    allocator.  Started with both counters at 0 and two distinct handles,
    whatever the order of the turns, whatever [rand()] returns and whatever
    the heap answers: every release they make names the pointer, the size
    and the handle of a request of theirs that was granted and not released
    since; what is still held at the end is what the two tasks have in hand;
    and the counters and the heap are those the sequence of their calls to
    the two functions produces. *)
Theorem tasks_keep_the_contract g0 ts :
  16 <= w ->
  sensorTaskHandle g0 <> commTaskHandle g0 ->
  sensorMemUsage g0 = 0 -> commMemUsage g0 = 0 ->
  Forall rand_ok ts ->
  let sys := turns w pvPortMalloc vPortFree portTICK_PERIOD_MS ts (started g0) in
  let cs := calls_of w pvPortMalloc vPortFree portTICK_PERIOD_MS ts
              (started g0) in
  (exists out,
     held w pvPortMalloc vPortFree [] cs g0 = Some out /\
     Permutation out (records sys)) /\
  agree (run w pvPortMalloc vPortFree cs g0) (shared (node sys)).
Proof.
  intros Hw Hne HS HC Hall. cbv zeta.
  destruct (turns_contract _ _ (trace g0) ts Hw Hne Hall (started g0) g0 []
              (started_settled g0 HS HC) (agree_refl g0) (Permutation_refl _))
    as (out & Hheld & Hperm & Hag).
  split; [|exact Hag]. exists out. split; assumption.
Qed.

End TasksFacts.

(** ** The model at work: a 32-bit device with the bump allocator *)

Lemma arena_fits cap :
  0 <= cap -> cap + 2048 < 2 ^ 32 -> heap_fits 32 (arena_malloc cap) cap.
Proof.
  intros H0 H1. unfold heap_fits, size_max. repeat split; try assumption.
  intros size brk. unfold arena_malloc.
  destruct (Z.leb_spec (Z.of_nat brk + size) cap) as [Hle|Hgt]; cbn [fst];
    [lia|].
  intros Hne. now contradiction Hne.
Qed.

Lemma isolation_witness :
  22 = commTaskHandle (boot 0) /\
  sensorTaskHandle (boot 0) <> commTaskHandle (boot 0) /\
  sensorMemUsage
    (snd (pvPortMallocWithQuota 32 (arena_malloc 4096) 1280 22 (boot 0))) = 0 /\
  sensorMemUsage
    (snd (vPortFreeWithTracking 32 arena_free 4096 1280 22 (boot 0))) = 0.
Proof.
  assert (Hne : sensorTaskHandle (boot 0) <> commTaskHandle (boot 0))
    by (cbn; lia).
  split; [reflexivity|]. split; [exact Hne|].
  exact (proj2 (isolation 32 nat (arena_malloc 4096) arena_free
                  (boot 0) 1280 4096 22) eq_refl Hne).
Defined.

Lemma unregistered_handle_witness :
  33 <> sensorTaskHandle (boot 0) /\ 33 <> commTaskHandle (boot 0) /\
  fst (pvPortMallocWithQuota 32 (arena_malloc 4096) 512 33 (boot 0)) = NULL.
Proof.
  assert (H1 : 33 <> sensorTaskHandle (boot 0)) by (cbn; lia).
  assert (H2 : 33 <> commTaskHandle (boot 0)) by (cbn; lia).
  split; [exact H1|]. split; [exact H2|].
  exact (proj1 (unregistered_handle 32 nat (arena_malloc 4096) arena_free
                  (boot 0) 512 4096 33 H1 H2)).
Defined.

Lemma release_wraps_witness :
  4096 <> NULL /\ unit_of 11 (boot 0) = Some Sensor /\
  is_size_t 32 (used Sensor (boot 0)) /\ is_size_t 32 100 /\
  used Sensor (boot 0) < 100 /\
  used Sensor (snd (vPortFreeWithTracking 32 arena_free 4096 100 11 (boot 0)))
  = 4294967196.
Proof.
  assert (Hp : 4096 <> NULL) by (unfold NULL; lia).
  assert (HU : is_size_t 32 (used Sensor (boot 0)))
    by (unfold is_size_t, size_max; cbn; lia).
  assert (HS : is_size_t 32 100) by (unfold is_size_t, size_max; cbn; lia).
  assert (Hlt : used Sensor (boot 0) < 100) by (cbn; lia).
  repeat (split; [assumption || reflexivity|]).
  exact (proj1 (proj2 (release_wraps 32 nat arena_free (boot 0) 4096 100 11
                         Sensor Hp eq_refl HU HS Hlt))).
Defined.

Lemma out_of_memory_is_silent_witness :
  unit_of 11 (boot 0) = Some Sensor /\
  size_add 32 (used Sensor (boot 0)) 100 <= quota_of Sensor /\
  fst (arena_malloc 0 100 (heap (boot 0))) = NULL /\
  reported (boot 0)
    (snd (pvPortMallocWithQuota 32 (arena_malloc 0) 100 11 (boot 0))) = false.
Proof.
  assert (Hq : size_add 32 (used Sensor (boot 0)) 100 <= quota_of Sensor)
    by (vm_compute; discriminate).
  split; [reflexivity|]. split; [exact Hq|]. split; [reflexivity|].
  exact (proj2 (proj2 (proj2 (proj2
    (out_of_memory_is_silent 32 nat (arena_malloc 0) (boot 0) 100 11 Sensor
       eq_refl Hq eq_refl))))).
Defined.

(** C6 as stated fails: with the quota test passed and the heap exhausted,
    the call fails and the counter is unchanged, but no line reaches the
    serial port. *)
Lemma out_of_memory_not_reported :
  unit_of 11 (boot 0) = Some Sensor /\
  size_add 32 (used Sensor (boot 0)) 100 <= quota_of Sensor /\
  fst (arena_malloc 0 100 (heap (boot 0))) = NULL /\
  ~ (let r := pvPortMallocWithQuota 32 (arena_malloc 0) 100 11 (boot 0) in
     fst r = NULL /\
     used Sensor (snd r) = used Sensor (boot 0) /\
     reported (boot 0) (snd r) = true).
Proof.
  split; [reflexivity|]. split; [vm_compute; discriminate|].
  split; [reflexivity|].
  vm_compute. intros (_ & _ & H). discriminate H.
Qed.

Lemma scenario_2048_witness :
  16 <= 32 /\ unit_of 11 (boot 0) = Some Sensor /\ used Sensor (boot 0) = 0 /\
  arena_malloc 4096 1280 (heap (boot 0)) = (4096, 1280%nat) /\ 4096 <> NULL /\
  let r1 := pvPortMallocWithQuota 32 (arena_malloc 4096) 1280 11 (boot 0) in
  let r2 := pvPortMallocWithQuota 32 (arena_malloc 4096) 1024 11 (snd r1) in
  let s3 := snd (vPortFreeWithTracking 32 arena_free (fst r1) 1280 11 (snd r2)) in
  fst r1 = 4096 /\ used Sensor (snd r1) = 1280 /\
  fst r2 = NULL /\ used Sensor (snd r2) = 1280 /\
  existsb is_heap_call (emitted (snd r1) (snd r2)) = false /\
  used Sensor s3 = 0.
Proof.
  assert (Hw : 16 <= 32) by lia.
  assert (Hp : 4096 <> NULL) by (unfold NULL; lia).
  assert (Hm : arena_malloc 4096 1280 (heap (boot 0)) = (4096, 1280%nat))
    by (vm_compute; reflexivity).
  split; [exact Hw|]. split; [reflexivity|]. split; [reflexivity|].
  split; [exact Hm|]. split; [exact Hp|].
  exact (scenario_2048 32 nat (arena_malloc 4096) arena_free (boot 0) 11
           Sensor 4096 1280%nat Hw eq_refl eq_refl Hm Hp).
Defined.

(** C1 as stated fails: a request within the quota is refused when the heap
    has nothing left. *)
Lemma quota_alone_does_not_decide :
  unit_of 11 (boot 0) = Some Sensor /\
  used Sensor (boot 0) + 100 <= quota_of Sensor /\
  fst (pvPortMallocWithQuota 32 (arena_malloc 0) 100 11 (boot 0)) = NULL /\
  ~ (fst (pvPortMallocWithQuota 32 (arena_malloc 0) 100 11 (boot 0)) <> NULL
     <-> used Sensor (boot 0) + 100 <= quota_of Sensor).
Proof.
  assert (Hq : used Sensor (boot 0) + 100 <= quota_of Sensor)
    by (vm_compute; discriminate).
  split; [reflexivity|]. split; [exact Hq|]. split; [reflexivity|].
  intros [_ Hback]. apply (Hback Hq). reflexivity.
Qed.

Lemma quota_decides_witness :
  heap_fits 32 (arena_malloc 4096) 4096 /\
  unit_of 11 (boot 0) = Some Sensor /\
  0 <= used Sensor (boot 0) <= quota_of Sensor /\
  is_size_t 32 1280 /\
  used Sensor (snd (pvPortMallocWithQuota 32 (arena_malloc 4096) 1280 11 (boot 0)))
  = used Sensor (boot 0) + 1280.
Proof.
  assert (Hfit : heap_fits 32 (arena_malloc 4096) 4096)
    by (apply arena_fits; cbn; lia).
  assert (HU : 0 <= used Sensor (boot 0) <= quota_of Sensor)
    by (cbn; unfold SENSOR_TASK_QUOTA; lia).
  assert (HS : is_size_t 32 1280) by (unfold is_size_t, size_max; cbn; lia).
  split; [exact Hfit|]. split; [reflexivity|]. split; [exact HU|].
  split; [exact HS|].
  apply (proj1 (proj2 (quota_decides 32 nat (arena_malloc 4096) (boot 0) 1280
                         11 Sensor 4096 Hfit eq_refl HU HS))).
  vm_compute. discriminate.
Defined.

Lemma two_tasks_sizes : sizes_ok 32 two_tasks.
Proof.
  unfold two_tasks, sizes_ok.
  repeat constructor; unfold size_max; cbn; lia.
Qed.

Lemma usage_within_quota_witness :
  heap_fits 32 (arena_malloc 8192) 8192 /\
  sizes_ok 32 two_tasks /\
  used Sensor (boot 0) = 0 /\
  held 32 (arena_malloc 8192) arena_free [] two_tasks (boot 0) <> None /\
  0 <= used Sensor (run 32 (arena_malloc 8192) arena_free
                      (firstn 5 two_tasks) (boot 0))
    <= quota_of Sensor.
Proof.
  assert (Hfit : heap_fits 32 (arena_malloc 8192) 8192)
    by (apply arena_fits; cbn; lia).
  assert (Hheld : held 32 (arena_malloc 8192) arena_free [] two_tasks (boot 0)
                  <> None) by (vm_compute; discriminate).
  split; [exact Hfit|]. split; [exact two_tasks_sizes|].
  split; [reflexivity|]. split; [exact Hheld|].
  exact (usage_within_quota 32 nat (arena_malloc 8192) arena_free two_tasks
           (boot 0) Sensor 8192 5 Hfit two_tasks_sizes eq_refl Hheld).
Defined.

Lemma conservation_witness :
  used Comm (boot 0) = 0 /\
  held 32 (arena_malloc 8192) arena_free [] two_tasks (boot 0) = Some [] /\
  used Comm (run 32 (arena_malloc 8192) arena_free two_tasks (boot 0)) = 0.
Proof.
  assert (Hheld : held 32 (arena_malloc 8192) arena_free [] two_tasks (boot 0)
                  = Some []) by (vm_compute; reflexivity).
  split; [reflexivity|]. split; [exact Hheld|].
  exact (conservation 32 nat (arena_malloc 8192) arena_free two_tasks (boot 0)
           Comm eq_refl Hheld).
Defined.

Lemma racing_calls_are_atomic_witness :
  let c := schedule 32 (arena_malloc 8192) arena_free sched3
             (racing race3 (boot 0)) in
  all_done c = true /\
  tasks c = [MDone 4096; MDone NULL; FDone] /\
  exists order,
    Permutation order (seq 0 3) /\
    serial 32 (arena_malloc 8192) arena_free (pick no_call race3 order) (boot 0)
    = (pick FDone (tasks c) order, globals c).
Proof.
  cbv zeta.
  assert (Hall : all_done (schedule 32 (arena_malloc 8192) arena_free sched3
                             (racing race3 (boot 0))) = true)
    by (vm_compute; reflexivity).
  split; [exact Hall|]. split; [vm_compute; reflexivity|].
  destruct (racing_calls_are_atomic 32 nat (arena_malloc 8192) arena_free
              race3 (boot 0) sched3 Hall) as (order & Hperm & Hser & _).
  exists order. split; assumption.
Defined.

Lemma rejection_is_reported_witness :
  unit_of 11 loaded = Some Sensor /\
  quota_of Sensor < size_add 32 (used Sensor loaded) 1024 /\
  let r := pvPortMallocWithQuota 32 (arena_malloc 8192) 1024 11 loaded in
  fst r = NULL /\
  emitted loaded (snd r)
  = [SemaphoreTake; SerialPrintf sensor_fmt [1024; 1280; 2048];
     SemaphoreGive].
Proof.
  assert (Hq : quota_of Sensor < size_add 32 (used Sensor loaded) 1024)
    by (vm_compute; reflexivity).
  split; [reflexivity|]. split; [exact Hq|].
  destruct (rejection_is_reported 32 nat (arena_malloc 8192) loaded 1024 11
              Sensor eq_refl Hq) as (Hp & Hline & _).
  split; [exact Hp | exact Hline].
Defined.

Lemma quota_test_wraps_witness :
  let s := snd (vPortFreeWithTracking 32 arena_free 4096 100 11 (boot 0)) in
  unit_of 11 s = Some Sensor /\
  is_size_t 32 (used Sensor s) /\ is_size_t 32 200 /\
  2 ^ 32 <= used Sensor s + 200 /\
  used Sensor s + 200 - 2 ^ 32 <= quota_of Sensor /\
  fst (pvPortMallocWithQuota 32 (arena_malloc 8192) 200 11 s) = 4096 /\
  used Sensor (snd (pvPortMallocWithQuota 32 (arena_malloc 8192) 200 11 s))
  = 100.
Proof.
  cbv zeta.
  set (s := snd (vPortFreeWithTracking 32 arena_free 4096 100 11 (boot 0))).
  assert (HU : is_size_t 32 (used Sensor s))
    by (unfold is_size_t, size_max; vm_compute; split; [discriminate|reflexivity]).
  assert (HS : is_size_t 32 200) by (unfold is_size_t, size_max; cbn; lia).
  assert (Hwrap : 2 ^ 32 <= used Sensor s + 200) by (vm_compute; discriminate).
  assert (Hq : used Sensor s + 200 - 2 ^ 32 <= quota_of Sensor)
    by (vm_compute; discriminate).
  split; [reflexivity|]. split; [exact HU|]. split; [exact HS|].
  split; [exact Hwrap|]. split; [exact Hq|].
  destruct (quota_test_wraps 32 nat (arena_malloc 8192) s 200 11 Sensor
              eq_refl HU HS Hwrap Hq) as (Hp & _ & Hused).
  split; [exact Hp | exact Hused].
Defined.

Lemma allocate_release_round_trip_witness :
  is_size_t 32 (sensorMemUsage loaded) /\ is_size_t 32 (commMemUsage loaded) /\
  let r := pvPortMallocWithQuota 32 (arena_malloc 8192) 512 11 loaded in
  let s' := snd (vPortFreeWithTracking 32 arena_free (fst r) 512 11 (snd r)) in
  sensorMemUsage s' = 1280 /\ commMemUsage s' = 0.
Proof.
  assert (HS : is_size_t 32 (sensorMemUsage loaded))
    by (unfold is_size_t, size_max; cbn; lia).
  assert (HC : is_size_t 32 (commMemUsage loaded))
    by (unfold is_size_t, size_max; cbn; lia).
  split; [exact HS|]. split; [exact HC|].
  exact (allocate_release_round_trip 32 nat (arena_malloc 8192) arena_free
           loaded 512 11 HS HC).
Defined.

Lemma mutual_exclusion_witness :
  let c := schedule 32 (arena_malloc 8192) arena_free (firstn 7 sched3)
             (racing race3 (boot 0)) in
  nth_error (tasks c) 0 = Some (MStore 1280 Sensor 4096 0) /\
  inside (MStore 1280 Sensor 4096 0) = true /\
  memMutex c = Some 0%nat /\
  forall j q, nth_error (tasks c) j = Some q -> inside q = true -> j = 0%nat.
Proof.
  cbv zeta.
  assert (Hp : nth_error
                 (tasks (schedule 32 (arena_malloc 8192) arena_free
                           (firstn 7 sched3) (racing race3 (boot 0)))) 0
               = Some (MStore 1280 Sensor 4096 0))
    by (vm_compute; reflexivity).
  split; [exact Hp|]. split; [reflexivity|].
  exact (mutual_exclusion 32 nat (arena_malloc 8192) arena_free race3 (boot 0)
           (firstn 7 sched3) 0 (MStore 1280 Sensor 4096 0) Hp eq_refl).
Defined.

Lemma free_mutex_whole_calls_witness :
  let c := schedule 32 (arena_malloc 8192) arena_free (firstn 11 sched3)
             (racing race3 (boot 0)) in
  memMutex c = None /\
  tasks c = [MDone 4096; MStart 1024 11; FDone] /\
  exists order,
    NoDup order /\
    (forall i, In i order <->
               exists p, nth_error (tasks c) i = Some p /\ is_done p = true) /\
    serial 32 (arena_malloc 8192) arena_free (pick no_call race3 order) (boot 0)
    = (pick FDone (tasks c) order, globals c).
Proof.
  cbv zeta.
  assert (Hm : memMutex (schedule 32 (arena_malloc 8192) arena_free
                           (firstn 11 sched3) (racing race3 (boot 0))) = None)
    by (vm_compute; reflexivity).
  split; [exact Hm|]. split; [vm_compute; reflexivity|].
  exact (free_mutex_whole_calls 32 nat (arena_malloc 8192) arena_free race3
           (boot 0) (firstn 11 sched3) Hm).
Defined.

Lemma request_sizes_witness :
  16 <= 32 /\ 0 <= 32767 /\
  256 <= sensor_allocSize 32 32767 <= 1279 /\
  512 <= comm_allocSize 32 32767 <= 2559 /\
  4 <= sensor_stress 32767 <= 7 /\
  6 <= comm_stress 32767 <= 8.
Proof.
  assert (Hw : 16 <= 32) by lia.
  assert (Hr : 0 <= 32767) by lia.
  split; [exact Hw|]. split; [exact Hr|].
  destruct (request_sizes 32 32767 Hw Hr) as (H1 & H2 & H3 & H4 & _).
  split; [exact H1|]. split; [exact H2|]. split; [exact H3 | exact H4].
Defined.


Lemma turns_leak_nothing_witness :
  let n := mkNode loaded [] in
  is_size_t 32 (sensorMemUsage (shared n)) /\
  is_size_t 32 (commMemUsage (shared n)) /\
  let a := snd (SensorTask_iteration 32 (arena_malloc 8192) arena_free 1
                  200 5 11 n) in
  sensorMemUsage (shared a) = 1280 /\ commMemUsage (shared a) = 0 /\
  paired (sensor_allocSize 32 200)
    (filter is_heap_call (emitted (shared n) (shared a))).
Proof.
  cbv zeta.
  assert (HS : is_size_t 32 (sensorMemUsage (shared (mkNode loaded []))))
    by (unfold is_size_t, size_max; cbn; lia).
  assert (HC : is_size_t 32 (commMemUsage (shared (mkNode loaded []))))
    by (unfold is_size_t, size_max; cbn; lia).
  split; [exact HS|]. split; [exact HC|].
  exact (proj1 (turns_leak_nothing 32 nat (arena_malloc 8192) arena_free 1
                  200 5 11 (mkNode loaded []) HS HC)).
Defined.

Lemma day_rand_ok : Forall rand_ok day.
Proof. unfold day. repeat constructor; cbn; lia. Defined.

Lemma counters_follow_the_tasks_witness :
  16 <= 32 /\ sensorTaskHandle (boot 0) <> commTaskHandle (boot 0) /\
  sensorMemUsage (boot 0) = 0 /\ commMemUsage (boot 0) = 0 /\
  Forall rand_ok day /\
  let sys := turns 32 (arena_malloc 8192) arena_free 1 day (started (boot 0)) in
  let g := shared (node sys) in
  sensorMemUsage g = bytes_in_hand (sensorHeld sys) /\
  commMemUsage g = bytes_in_hand (commHeld sys) /\
  0 <= sensorMemUsage g <= 1279 /\
  0 <= commMemUsage g <= COMM_TASK_QUOTA /\
  (sensorHeld sys = None -> sensorMemUsage g = 0) /\
  (commHeld sys = None -> commMemUsage g = 0).
Proof.
  assert (Hw : 16 <= 32) by lia.
  assert (Hne : sensorTaskHandle (boot 0) <> commTaskHandle (boot 0))
    by (cbn; lia).
  split; [exact Hw|]. split; [exact Hne|]. split; [reflexivity|].
  split; [reflexivity|]. split; [exact day_rand_ok|].
  exact (counters_follow_the_tasks 32 nat (arena_malloc 8192) arena_free 1
           (boot 0) day Hw Hne eq_refl eq_refl day_rand_ok).
Defined.

Lemma sensor_is_never_turned_down_witness :
  16 <= 32 /\ sensorTaskHandle (boot 0) <> commTaskHandle (boot 0) /\
  sensorMemUsage (boot 0) = 0 /\ commMemUsage (boot 0) = 0 /\
  Forall rand_ok (day ++ day) /\
  let sys := turns 32 (arena_malloc 2048) arena_free 1 (day ++ day)
               (started (boot 0)) in
  existsb (is_rejection Sensor) (emitted (boot 0) (shared (node sys))) = false.
Proof.
  assert (Hw : 16 <= 32) by lia.
  assert (Hne : sensorTaskHandle (boot 0) <> commTaskHandle (boot 0))
    by (cbn; lia).
  assert (Hall : Forall rand_ok (day ++ day))
    by (apply Forall_app; split; exact day_rand_ok).
  split; [exact Hw|]. split; [exact Hne|]. split; [reflexivity|].
  split; [reflexivity|]. split; [exact Hall|].
  exact (sensor_is_never_turned_down 32 nat (arena_malloc 2048) arena_free 1
           (boot 0) (day ++ day) Hw Hne eq_refl eq_refl Hall).
Defined.

Lemma comm_task_asks_too_much_witness :
  let n := mkNode (boot 0) [] in
  16 <= 32 /\ 0 <= 2000 /\
  sensorTaskHandle (shared n) <> commTaskHandle (shared n) /\
  commMemUsage (shared n) = 0 /\
  let out := CommTask_request 32 (arena_malloc 8192) 1 2000 7 22 n in
  fst out = (2512, NULL) /\
  emitted (shared n) (shared (snd out))
  = [SerialPrintf comm_alloc_fmt [2512]; SemaphoreTake;
     SerialPrintf comm_fmt [2512; 0; 2048]; SemaphoreGive] /\
  journal (snd out) = [Sleep 2500].
Proof.
  cbv zeta.
  assert (Hw : 16 <= 32) by lia.
  assert (Hr : 0 <= 2000) by lia.
  assert (Hne : sensorTaskHandle (shared (mkNode (boot 0) []))
                <> commTaskHandle (shared (mkNode (boot 0) [])))
    by (cbn; lia).
  split; [exact Hw|]. split; [exact Hr|]. split; [exact Hne|].
  split; [reflexivity|].
  destruct (comm_task_asks_too_much 32 nat (arena_malloc 8192) 1
              (mkNode (boot 0) []) 2000 7 Hw Hr Hne eq_refl)
    as (Hsz & Hp & _ & _ & Hline & Hj).
  split; [|split; [exact Hline | exact Hj]].
  change (commTaskHandle (shared (mkNode (boot 0) []))) with 22 in Hsz, Hp.
  destruct (CommTask_request 32 (arena_malloc 8192) 1 2000 7 22
              (mkNode (boot 0) [])) as [[a b] n'].
  cbn [fst snd] in Hsz, Hp. cbn [fst]. now rewrite Hsz, Hp.
Defined.

Lemma tasks_keep_the_contract_witness :
  16 <= 32 /\ sensorTaskHandle (boot 0) <> commTaskHandle (boot 0) /\
  sensorMemUsage (boot 0) = 0 /\ commMemUsage (boot 0) = 0 /\
  Forall rand_ok day /\
  let sys := turns 32 (arena_malloc 8192) arena_free 1 day (started (boot 0)) in
  let cs := calls_of 32 (arena_malloc 8192) arena_free 1 day
              (started (boot 0)) in
  cs = [Alloc 1256 11; Alloc 2512 22; Alloc 612 22; Release 4096 1256 11;
        Alloc 1279 11; Release 5352 612 22] /\
  (exists out,
     held 32 (arena_malloc 8192) arena_free [] cs (boot 0) = Some out /\
     Permutation out (records sys)) /\
  agree (run 32 (arena_malloc 8192) arena_free cs (boot 0)) (shared (node sys)).
Proof.
  assert (Hw : 16 <= 32) by lia.
  assert (Hne : sensorTaskHandle (boot 0) <> commTaskHandle (boot 0))
    by (cbn; lia).
  split; [exact Hw|]. split; [exact Hne|]. split; [reflexivity|].
  split; [reflexivity|]. split; [exact day_rand_ok|].
  cbv zeta. split; [vm_compute; reflexivity|].
  exact (tasks_keep_the_contract 32 nat (arena_malloc 8192) arena_free 1
           (boot 0) day Hw Hne eq_refl eq_refl day_rand_ok).
Defined.
